(** * NextWebServer (packages/next/src/server/web-server.ts)

    A shallow embedding of the edge web server's request pipeline:
    [getPrerenderManifest], [handleCatchallRenderRequest], [renderHTML]
    and [sendRenderResult], with the properties they are expected to have.

    JavaScript objects used as string-keyed bags (the query, [renderOpts],
    the response headers) are finite maps; objects that are shared by
    reference live in a store indexed by locations; [throw] is an explicit
    completion; the helpers the file imports from other modules are fields
    of the record [Imports]. *)

From Stdlib Require Import ZArith String List Bool Ascii.
From stdpp Require Import gmap strings list fin_maps pretty.

Local Open Scope string_scope.
Local Open Scope list_scope.

(** ** JavaScript values *)

Module JS.

(** The values that occur in a parsed query ([string | string[]]) and in
    the option bags. *)
Inductive value : Type :=
| VUndefined
| VBool (b : bool)
| VNum (n : Z)
| VStr (s : string)
| VArr (l : list string).

Definition isEmpty (s : string) : bool :=
  match s with
  | EmptyString => true
  | String _ _ => false
  end.

(** [!!v]: ToBoolean. *)
Definition truthy (v : value) : bool :=
  match v with
  | VUndefined => false
  | VBool b => b
  | VNum n => negb (n =? 0)%Z
  | VStr s => negb (isEmpty s)
  | VArr _ => true
  end.

(** [!!s] for [s : string | undefined]. *)
Definition truthyStr (o : option string) : bool :=
  match o with
  | Some s => negb (isEmpty s)
  | None => false
  end.

(** [o.k]: reading a missing property gives [undefined]. *)
Definition get (o : gmap string value) (k : string) : value :=
  default VUndefined (o !! k).

(** [Object.assign(target, source)]: the source's own properties
    overwrite the target's. *)
Definition assign (target source : gmap string value)
  : gmap string value :=
  source ∪ target.

Inductive error : Type :=
| NoFallbackError
| Error (message : string).

(** [err instanceof NoFallbackError] *)
Definition isNoFallbackError (e : error) : bool :=
  match e with
  | NoFallbackError => true
  | Error _ => false
  end.

(** How a call ends: [return a] or [throw e] (for an [async] function, a
    fulfilled or a rejected promise). *)
Inductive completion (A : Type) : Type :=
| Return (a : A)
| Throw (e : error).
Arguments Return {A} a.
Arguments Throw {A} e.

End JS.

Import JS.

Abbreviation query_t := (gmap string value).

(** ** Request data *)

(** [NextUrlWithParsedQuery], restricted to the two fields the server
    reads.  [pathname] is [string | null | undefined]. *)
Record ParsedUrl : Type := {
  pathname : option string;
  query : query_t;
}.

(** The result of [i18nProvider.analyze(pathname)]. *)
Record LocaleAnalysis : Type := {
  detectedLocale : option string;
  analyzedPathname : string;
}.

(** The helpers [web-server.ts] imports; their modules are not part of the
    file, so they are taken as given. *)
Record Imports (Req RouteRegex : Type) : Type := {
  isAPIRoute : string → bool;
  removeTrailingSlash : string → string;
  isDynamicRoute : string → bool;
  getNamedRouteRegex : string → bool → RouteRegex;
  (** [Object.keys(routeRegex.routeKeys)] *)
  routeKeys : RouteRegex → list string;
  interpolateDynamicPath : string → query_t → RouteRegex → string;
  (** [normalizeVercelUrl] rewrites [req.url] in place. *)
  normalizeVercelUrl :
    Req → bool → list string → bool → RouteRegex → Req;
}.
Arguments isAPIRoute {Req RouteRegex} _ _.
Arguments removeTrailingSlash {Req RouteRegex} _ _.
Arguments isDynamicRoute {Req RouteRegex} _ _.
Arguments getNamedRouteRegex {Req RouteRegex} _ _ _.
Arguments routeKeys {Req RouteRegex} _ _.
Arguments interpolateDynamicPath {Req RouteRegex} _ _ _ _.
Arguments normalizeVercelUrl {Req RouteRegex} _ _ _ _ _ _.

(** The arguments of one call
    [this.render(req, res, pathname, query, parsedUrl, true)].
    [query] and [parsedUrl.query] are one object in the source; both views
    are recorded. *)
Record RenderCall (Req Res : Type) : Type := {
  rc_req : Req;
  rc_res : Res;
  rc_pathname : string;
  rc_query : query_t;
  rc_parsedUrl : ParsedUrl;
  rc_internal : bool;
}.
Arguments rc_req {Req Res} _.
Arguments rc_res {Req Res} _.
Arguments rc_pathname {Req Res} _.
Arguments rc_query {Req Res} _.
Arguments rc_parsedUrl {Req Res} _.
Arguments rc_internal {Req Res} _.

(** What the catch-all handler needs of [this]. *)
Record Server (Req Res : Type) : Type := {
  (** [this.serverOptions.webServerConfig.pathname] *)
  webServerConfig_pathname : string;
  (** [this.i18nProvider], when configured *)
  i18nProvider : option (string → LocaleAnalysis);
  (** [this.render], inherited from the base server: it returns or throws. *)
  render : RenderCall Req Res → completion unit;
}.
Arguments webServerConfig_pathname {Req Res} _.
Arguments i18nProvider {Req Res} _.
Arguments render {Req Res} _ _.

Record Finished : Type := { finished : bool }.

(** ** handleCatchallRenderRequest *)

Section CatchallRender.

Context {Req Res RouteRegex : Type}.
Variable I : Imports Req RouteRegex.
Variable this : Server Req Res.

(** Lines 146-162: the page the route was matched to replaces a
    different incoming pathname, and is interpolated when dynamic. *)
Definition interpolatePage (req : Req) (pathname : string) (query : query_t)
  : string * Req :=
  let normalizedPage := webServerConfig_pathname this in
  if decide (pathname ≠ normalizedPage) then
    let pathname := normalizedPage in
    if isDynamicRoute I pathname then
      let routeRegex := getNamedRouteRegex I pathname false in
      (interpolateDynamicPath I pathname query routeRegex,
       normalizeVercelUrl I req true (routeKeys I routeRegex) true routeRegex)
    else (pathname, req)
  else (pathname, req).

(** Lines 167-172: only [detectedLocale] of the analysis is read. *)
Definition annotateLocale (pathname : string) (query : query_t) : query_t :=
  match i18nProvider this with
  | Some analyze =>
      let detected := detectedLocale (analyze pathname) in
      match detected with
      | Some l =>
          if truthyStr detected then <["__nextLocale" := VStr l]> query
          else query
      | None => query
      end
  | None => query
  end.

(** Lines 176-178. *)
Definition stripBubbleFlag (pathname : string) (query : query_t) : query_t :=
  if isAPIRoute I pathname then delete "_nextBubbleNoFallback" query
  else query.

(** Everything up to the [try]: the call of [this.render] that the
    handler is about to make, or the [throw] of line 141. *)
Definition renderCall (req : Req) (res : Res) (parsedUrl : ParsedUrl)
  : completion (bool * RenderCall Req Res) :=
  match pathname parsedUrl with
  | None => Throw (Error "pathname is undefined")
  | Some p =>
      if isEmpty p then Throw (Error "pathname is undefined")
      else
        let query := query parsedUrl in
        let '(p1, req1) := interpolatePage req p query in
        let p2 := removeTrailingSlash I p1 in
        let query1 := annotateLocale p2 query in
        let bubbleNoFallback := truthy (get query1 "_nextBubbleNoFallback") in
        let query2 := stripBubbleFlag p2 query1 in
        Return (bubbleNoFallback,
                {| rc_req := req1; rc_res := res; rc_pathname := p2;
                   rc_query := query2;
                   rc_parsedUrl :=
                     {| pathname := pathname parsedUrl; query := query2 |};
                   rc_internal := true |})
  end.

Definition handleCatchallRenderRequest
    (req : Req) (res : Res) (parsedUrl : ParsedUrl) : completion Finished :=
  match renderCall req res parsedUrl with
  | Throw e => Throw e
  | Return (bubbleNoFallback, call) =>
      match render this call with
      | Return _ => Return {| finished := true |}
      | Throw err =>
          if isNoFallbackError err && bubbleNoFallback
          then Return {| finished := false |}
          else Throw err
      end
  end.

End CatchallRender.

(** ** renderHTML *)

(** [renderOpts] is an object handed around by reference: option bags live
    in a store, and a reference is a location of it. *)
Abbreviation loc := positive.
Abbreviation store := (gmap loc (gmap string value)).

(** The object at a location; a location that holds no object reads as an
    object without properties, which is also what [this.renderOpts?.dev]
    gives when [this.renderOpts] is undefined. *)
Definition deref (σ : store) (l : loc) : gmap string value :=
  default ∅ (σ !! l).

(** [Object.assign(l, source)]: the object at [l] is updated in place. *)
Definition assignAt (σ : store) (l : loc) (source : gmap string value)
  : store :=
  <[l := assign (deref σ l) source]> σ.

(** The arguments of one call
    [renderToHTML(req, res, pathname, query, renderOpts)]. *)
Record RenderToHTMLCall (Req Res : Type) : Type := {
  rh_req : Req;
  rh_res : Res;
  rh_pathname : string;
  rh_query : query_t;
  rh_renderOpts : loc;
}.
Arguments rh_req {Req Res} _.
Arguments rh_res {Req Res} _.
Arguments rh_pathname {Req Res} _.
Arguments rh_query {Req Res} _.
Arguments rh_renderOpts {Req Res} _.

(** The second argument of the [Object.assign] of lines 220-223. *)
Definition edgeOverlay : gmap string value :=
  <["disableOptimizedLoading" := VBool true]>
    (<["runtime" := VStr "experimental-edge"]> ∅).

Section RenderHTML.

Context {Req Res Result : Type}.
(** [this.serverOptions.webServerConfig.renderToHTML]; it runs in the
    store as [renderHTML] leaves it. *)
Variable renderToHTML : option (RenderToHTMLCall Req Res → store → Result).

(** Line 212. *)
Definition notFoundMarker (σ : store) (renderOpts : loc) : string :=
  if truthy (get (deref σ renderOpts) "dev") then "/not-found"
  else "/_not-found".

(** Lines 212-224: the call of [renderToHTML] that is made, and the store
    after the [Object.assign] that builds its last argument. *)
Definition renderToHTMLCall (σ : store) (req : Req) (res : Res)
    (pathname : string) (query : query_t) (renderOpts : loc)
  : RenderToHTMLCall Req Res * store :=
  let pathname :=
    if decide (pathname = notFoundMarker σ renderOpts) then "/404"
    else pathname in
  ({| rh_req := req; rh_res := res; rh_pathname := pathname;
      rh_query := query; rh_renderOpts := renderOpts |},
   assignAt σ renderOpts edgeOverlay).

Definition renderHTML (σ : store) (req : Req) (res : Res)
    (pathname : string) (query : query_t) (renderOpts : loc)
  : completion (Result * store) :=
  match renderToHTML with
  | None =>
      Throw (Error
        "Invariant: routeModule should be configured when rendering pages")
  | Some f =>
      let '(call, σ') := renderToHTMLCall σ req res pathname query renderOpts in
      Return (f call σ', σ')
  end.

(** The store after a run of requests that all hand the same [renderOpts]
    object to [renderHTML]. *)
Fixpoint renderAll (σ : store) (renderOpts : loc)
    (requests : list (Req * Res * string * query_t)) : store :=
  match requests with
  | [] => σ
  | (req, res, pathname, query) :: rest =>
      renderAll
        (snd (renderToHTMLCall σ req res pathname query renderOpts))
        renderOpts rest
  end.

End RenderHTML.

(** ** getPrerenderManifest *)

(** [PrerenderManifest] (declared in [../build]); the per-route metadata is
    left abstract, [preview] is an object with string properties. *)
Record PrerenderManifest (Route DynamicRoute : Type) : Type := {
  version : Z;
  routes : gmap string Route;
  dynamicRoutes : gmap string DynamicRoute;
  notFoundRoutes : list string;
  preview : gmap string string;
}.
Arguments version {Route DynamicRoute} _.
Arguments routes {Route DynamicRoute} _.
Arguments dynamicRoutes {Route DynamicRoute} _.
Arguments notFoundRoutes {Route DynamicRoute} _.
Arguments preview {Route DynamicRoute} _.

Section PrerenderManifest.

Context {Route DynamicRoute : Type}.

(** Lines 117-125. *)
Definition developmentManifest : PrerenderManifest Route DynamicRoute :=
  {| version := -1;
     routes := ∅;
     dynamicRoutes := ∅;
     notFoundRoutes := [];
     preview := <["previewModeId" := "development-id"]> ∅ |}.

(** [σ] holds [this.renderOpts] at [renderOpts]; [prerenderManifest] is
    [this.serverOptions.webServerConfig.prerenderManifest]. *)
Definition getPrerenderManifest (σ : store) (renderOpts : loc)
    (prerenderManifest : option (PrerenderManifest Route DynamicRoute))
  : PrerenderManifest Route DynamicRoute :=
  match prerenderManifest with
  | Some m =>
      if truthy (get (deref σ renderOpts) "dev") then developmentManifest
      else m
  | None => developmentManifest
  end.

End PrerenderManifest.

(** ** sendRenderResult *)

(** A JavaScript string whose length matters is kept as its sequence of
    Unicode code points. *)
Abbreviation text := (list N).

(** Modelled from the spec: [byteLength] of [./api-utils/web] is not part
    of the file.  The spec asks for the length in bytes, not in characters,
    of the payload as it goes on the wire; the wire encoding is UTF-8, in
    which a code point takes one to four bytes. *)
Definition utf8Width (c : N) : N :=
  if (c <? 128)%N then 1%N
  else if (c <? 2048)%N then 2%N
  else if (c <? 65536)%N then 3%N
  else 4%N.

Definition byteLength (payload : text) : N :=
  foldr (λ c n, (utf8Width c + n)%N) 0%N payload.

(** The character count [payload.length]: a code point beyond the basic
    plane counts as two UTF-16 units, any other as one. *)
Definition utf16Width (c : N) : N :=
  if (c <? 65536)%N then 1%N else 2%N.

Definition charCount (payload : text) : N :=
  foldr (λ c n, (utf16Width c + n)%N) 0%N payload.

(** The streaming sink of the response and the promise of its closing.
    A continuation attached to a promise does not run when the promise
    settles: it is queued, and runs as a microtask once the code that is
    running has finished. *)
Module Stream.

Abbreviation chunk := (list N).

(** A listener registered with [target.on('close', cb)]: it is told apart
    by [cb_id], and may throw when it is called. *)
Record Callback : Type := { cb_id : nat; cb_throws : bool }.

Inductive settlement : Type := Fulfilled | Rejected.

(** A promise that was rejected while nothing was attached to it. *)
Inductive promise : Type :=
| WriterClosed   (** [writer.closed] *)
| Derived.       (** the promise that [then] or [finally] returned *)

Record state : Type := {
  (** [let innerClose] *)
  innerClose : option Callback;
  (** [writer.closed]: pending, or settled *)
  closed : option settlement;
  (** the reaction to [writer.closed] that is queued and has not run *)
  queued : option settlement;
  (** the chunks written through [writer.write] *)
  written : list chunk;
  (** the listeners called so far, latest last *)
  invoked : list Callback;
  (** the unhandled rejections reported so far *)
  unhandled : list promise;
}.

Definition initial : state :=
  {| innerClose := None; closed := None; queued := None; written := [];
     invoked := []; unhandled := [] |}.

Definition setInnerClose (cb : option Callback) (s : state) : state :=
  {| innerClose := cb; closed := closed s; queued := queued s;
     written := written s; invoked := invoked s;
     unhandled := unhandled s |}.

Definition setClosed (o : settlement) (s : state) : state :=
  {| innerClose := innerClose s; closed := Some o; queued := queued s;
     written := written s; invoked := invoked s;
     unhandled := unhandled s |}.

Definition setQueued (job : option settlement) (s : state) : state :=
  {| innerClose := innerClose s; closed := closed s; queued := job;
     written := written s; invoked := invoked s;
     unhandled := unhandled s |}.

(** A continuation runs in the state and returns or throws. *)
Definition handler : Type := state → state * settlement.

Definition call (cb : Callback) (s : state) : state * settlement :=
  ({| innerClose := innerClose s; closed := closed s; queued := queued s;
      written := written s; invoked := invoked s ++ [cb];
      unhandled := unhandled s |},
   if cb_throws cb then Rejected else Fulfilled).

(** Lines 272-274: [innerClose?.()], with [innerClose] as it is when the
    continuation runs. *)
Definition onClose : handler :=
  λ s, match innerClose s with
       | Some cb => call cb s
       | None => (s, Fulfilled)
       end.

(** What is attached to [writer.closed]. *)
Inductive reaction : Type :=
| NoReaction
| Then (onFulfilled onRejected : option handler)
| Finally (onFinally : handler).

(** Line 278: [writer.closed.then(onClose, onClose)]. *)
Definition attached : reaction := Then (Some onClose) (Some onClose).

Definition report (p : promise) (s : state) : state :=
  {| innerClose := innerClose s; closed := closed s; queued := queued s;
     written := written s; invoked := invoked s;
     unhandled := unhandled s ++ [p] |}.

(** The derived promise has no continuation of its own: when it is
    rejected, that rejection is unhandled. *)
Definition settleDerived (o : settlement) (s : state) : state :=
  match o with
  | Fulfilled => s
  | Rejected => report Derived s
  end.

(** [writer.closed] settles with [o]; a promise settles once.  With
    nothing attached a rejection is unhandled; with a reaction attached,
    the reaction is queued. *)
Definition settle (r : reaction) (o : settlement) (s : state) : state :=
  match closed s with
  | Some _ => s
  | None =>
      match r with
      | NoReaction =>
          match o with
          | Fulfilled => setClosed o s
          | Rejected => report WriterClosed (setClosed o s)
          end
      | _ => setQueued (Some o) (setClosed o s)
      end
  end.

(** The queued reaction runs.  [then] with a continuation for the
    settlement runs it, and the derived promise takes the continuation's
    outcome; without one, the settlement passes to the derived promise.
    [finally] runs its continuation and passes the settlement on. *)
Definition react (r : reaction) (s : state) : state :=
  match queued s with
  | None => s
  | Some o =>
      let s1 := setQueued None s in
      match r with
      | NoReaction => s1
      | Then onFulfilled onRejected =>
          match (match o with
                 | Fulfilled => onFulfilled
                 | Rejected => onRejected
                 end) with
          | Some h => let '(s2, o2) := h s1 in settleDerived o2 s2
          | None => settleDerived o s1
          end
      | Finally h =>
          let '(s2, o2) := h s1 in
          settleDerived
            (match o2 with Rejected => Rejected | Fulfilled => o end) s2
      end
  end.

(** What happens to the stream after [sendRenderResult] has set it up:
    the calls [result.pipe] makes on [target] (lines 261-271), the
    consumer going away, and the microtasks being run. *)
Inductive event : Type :=
| Write (c : chunk)     (** [target.write(chunk)] *)
| End                   (** [target.end()], that is [writer.close()] *)
| On (cb : Callback)    (** [target.on('close', cb)] *)
| Off (cb : Callback)   (** [target.off('close', cb)] *)
| Cancel                (** the stream is cancelled: [writer.closed] rejects *)
| Microtask.            (** the running code has finished: queued
                            reactions run *)

Definition step (r : reaction) (s : state) (e : event) : state :=
  match e with
  | Write c =>
      match closed s with
      | Some _ => s
      | None =>
          {| innerClose := innerClose s; closed := closed s;
             queued := queued s;
             written := written s ++ [c]; invoked := invoked s;
             unhandled := unhandled s |}
      end
  | End => settle r Fulfilled s
  | Cancel => settle r Rejected s
  | On cb => setInnerClose (Some cb) s
  | Off _ => setInnerClose None s
  | Microtask => react r s
  end.

Definition run (r : reaction) (s : state) (es : list event) : state :=
  fold_left (step r) es s.

Definition closes (e : event) : bool :=
  match e with
  | End | Cancel => true
  | _ => false
  end.

Definition isMicrotask (e : event) : bool :=
  match e with
  | Microtask => true
  | _ => false
  end.

End Stream.

Inductive ContentKind : Type := html | json.

(** [a === b] on the two content kinds. *)
Definition sameKind (a b : ContentKind) : bool :=
  match a, b with
  | html, html | json, json => true
  | _, _ => false
  end.

(** [RenderResult], as far as [sendRenderResult] looks at it. *)
Record RenderResult : Type := {
  contentType : option string;
  isDynamic : bool;
  (** what [await result.toUnchunkedString()] gives *)
  toUnchunkedString : text;
}.

Record SendOptions : Type := {
  result : RenderResult;
  type : ContentKind;
  generateEtags : bool;
  poweredByHeader : bool;
}.

(** The calls made on the response. *)
Inductive ResCall : Type :=
| SetHeader (name value : string)
| Body (payload : text)
| Send.

(** [WebNextResponse]: its headers, each under its name in lower case,
    its body, and the calls it has received, latest last. *)
Record Response : Type := {
  headers : gmap string string;
  textBody : option text;
  sent : bool;
  calls : list ResCall;
}.

(** Header names are compared without regard to case: a header is kept
    under its name in lower case. *)
Definition lowerAscii (c : ascii) : ascii :=
  let n := nat_of_ascii c in
  if (65 <=? n)%nat && (n <=? 90)%nat then ascii_of_nat (n + 32) else c.

Fixpoint lower (s : string) : string :=
  match s with
  | EmptyString => EmptyString
  | String c rest => String (lowerAscii c) (lower rest)
  end.

Arguments lower : simpl never.

Definition getHeader (res : Response) (name : string) : option string :=
  headers res !! lower name.

(** A call on the response gives the response after it, and returns or
    throws. *)
Definition Step : Type := Response → Response * completion unit.

Definition skip : Step := λ res, (res, Return ()).

(** [first; next]: when [first] throws, [next] is not run. *)
Definition andThen (first next : Step) : Step :=
  λ res,
    match first res with
    | (res1, Return _) => next res1
    | (res1, Throw e) => (res1, Throw e)
    end.

Definition body (payload : text) : Step :=
  λ res,
    ({| headers := headers res; textBody := Some payload; sent := sent res;
        calls := calls res ++ [Body payload] |}, Return ()).

Definition send (res : Response) : Response :=
  {| headers := headers res; textBody := textBody res; sent := true;
     calls := calls res ++ [Send] |}.

(** Lines 249-253: the declared content type when it is truthy, else the
    default of the content kind. *)
Definition derivedContentType (options : SendOptions) : string :=
  match contentType (result options) with
  | Some declared =>
      if truthyStr (Some declared) then declared
      else if sameKind (type options) json then "application/json"
      else "text/html; charset=utf-8"
  | None =>
      if sameKind (type options) json then "application/json"
      else "text/html; charset=utf-8"
  end.

(** What [sendRenderResult] leaves: the response, the stream it has set
    up on the streaming path together with what is attached to
    [writer.closed], and whether the call returned or threw. *)
Record SendResult : Type := {
  sr_response : Response;
  sr_stream : option (Stream.state * Stream.reaction);
  sr_outcome : completion unit;
}.

Section SendRenderResult.

(** [generateETag] of [./lib/etag]. *)
Variable generateETag : text → string.

(** The check the response makes on a header value it is given: the value
    as it is stored, or the error that is thrown for a value that is not a
    valid header value. *)
Variable checkHeaderValue : string → completion string.

(** [res.setHeader(name, value)]: the header is deleted, then the value is
    appended, which is where an invalid value throws. *)
Definition setHeader (name value : string) : Step :=
  λ res,
    match checkHeaderValue value with
    | Return stored =>
        ({| headers := <[lower name := stored]> (headers res);
            textBody := textBody res; sent := sent res;
            calls := calls res ++ [SetHeader name value] |}, Return ())
    | Throw e =>
        ({| headers := delete (lower name) (headers res);
            textBody := textBody res; sent := sent res;
            calls := calls res ++ [SetHeader name value] |}, Throw e)
    end.

(** Lines 246-255. *)
Definition sendContentType (options : SendOptions) : Step :=
  λ res,
    if negb (truthyStr (getHeader res "Content-Type")) then
      setHeader "Content-Type" (derivedContentType options) res
    else skip res.

(** Lines 238-255. *)
Definition sendHeaders (options : SendOptions) : Step :=
  andThen (setHeader "X-Edge-Runtime" "1")
    (andThen
       (if poweredByHeader options && sameKind (type options) html
        then setHeader "X-Powered-By" "Next.js"
        else skip)
       (sendContentType options)).

(** Lines 281-286. *)
Definition sendBuffered (options : SendOptions) : Step :=
  let payload := toUnchunkedString (result options) in
  andThen (setHeader "Content-Length" (pretty (byteLength payload)))
    (andThen
       (if generateEtags options
        then setHeader "ETag" (generateETag payload)
        else skip)
       (body payload)).

(** Lines 257-279 set the stream up and attach [onClose] to
    [writer.closed]; line 289 sends.  A call that throws ends the
    function there. *)
Definition sendRenderResult (res : Response) (options : SendOptions)
  : SendResult :=
  match sendHeaders options res with
  | (res1, Throw e) =>
      {| sr_response := res1; sr_stream := None; sr_outcome := Throw e |}
  | (res1, Return _) =>
      if isDynamic (result options) then
        {| sr_response := send res1;
           sr_stream := Some (Stream.initial, Stream.attached);
           sr_outcome := Return () |}
      else
        match sendBuffered options res1 with
        | (res2, Throw e) =>
            {| sr_response := res2; sr_stream := None;
               sr_outcome := Throw e |}
        | (res2, Return _) =>
            {| sr_response := send res2; sr_stream := None;
               sr_outcome := Return () |}
        end
  end.

End SendRenderResult.

(** ** A concrete set of imports

    The imported helpers in the form the spec describes them, so that the
    handler can be run on concrete requests. *)
Module Sample.

Fixpoint dropLastSlash (s : string) : string :=
  match s with
  | EmptyString => EmptyString
  | String c EmptyString => if Ascii.eqb c "/" then EmptyString else s
  | String c rest => String c (dropLastSlash rest)
  end.

(** Modelled from the spec: [removeTrailingSlash] is not part of the
    file.  "Trailing slash is always stripped from the final pathname
    (canonical form has no trailing slash except the root)". *)
Definition removeTrailingSlash (route : string) : string :=
  let r := dropLastSlash route in
  if isEmpty r then "/" else r.

(** The segments of a path, between its slashes. *)
Fixpoint segments (s : string) : list string :=
  match s with
  | EmptyString => [EmptyString]
  | String c rest =>
      match segments rest with
      | [] => [String c EmptyString]
      | seg :: segs =>
          if Ascii.eqb c "/" then EmptyString :: seg :: segs
          else String c seg :: segs
      end
  end.

Fixpoint dropLastBracket (s : string) : option string :=
  match s with
  | EmptyString => None
  | String c EmptyString => if Ascii.eqb c "]" then Some EmptyString else None
  | String c rest => String c <$> dropLastBracket rest
  end.

(** The name in a parameter segment [[name]]. *)
Definition paramName (seg : string) : option string :=
  match seg with
  | String c rest => if Ascii.eqb c "[" then dropLastBracket rest else None
  | EmptyString => None
  end.

Definition isParam (seg : string) : bool :=
  match paramName seg with Some _ => true | None => false end.

(** Modelled from the spec: [isDynamicRoute] is not part of the file.
    A pathname is dynamic when it "contains parameter segments". *)
Definition isDynamicRoute (route : string) : bool :=
  existsb isParam (segments route).

(** A pathname in which a [[param]] segment is left. *)
Definition hasUnresolvedParam (route : string) : bool :=
  existsb isParam (segments route).

(** Modelled from the spec: [getNamedRouteRegex] is not part of the
    file.  Of the named-capture regex only the parameter names are kept. *)
Definition getNamedRouteRegex (route : string) (prefixRouteKeys : bool)
  : list string :=
  omap paramName (segments route).

Definition paramValue (v : value) : string :=
  match v with
  | VStr s => s
  | VArr l => String.concat "/" l
  | _ => EmptyString
  end.

(** Modelled from the spec: [interpolateDynamicPath] is not part of the
    file.  It "substitutes actual parameter values from the query mapping
    into the path segments". *)
Definition interpolateDynamicPath (route : string) (params : query_t)
    (routeRegex : list string) : string :=
  String.concat "/"
    (map (λ seg,
            match paramName seg with
            | Some name =>
                if bool_decide (name ∈ routeRegex)
                then paramValue (get params name) else seg
            | None => seg
            end)
         (segments route)).

(** Modelled from the spec: [isAPIRoute] is not part of the file.  A
    "programmatic API-style route" is [/api] and what lies under it. *)
Definition isAPIRoute (route : string) : bool :=
  String.eqb route "/api" || String.prefix "/api/" route.

(** Requests are their URL; [normalizeVercelUrl] is not followed. *)
Definition imports : Imports string (list string) :=
  Build_Imports string (list string)
    isAPIRoute removeTrailingSlash isDynamicRoute getNamedRouteRegex
    (λ routeRegex, routeRegex) interpolateDynamicPath
    (λ req _ _ _ _, req).

(** Modelled from the spec: the locale provider is not part of the file.
    It "analyzes the resolved pathname" and, for a path under [/fr],
    detects the locale and gives the path without the prefix. *)
Definition analyzeFr (p : string) : LocaleAnalysis :=
  if String.eqb p "/fr" then
    {| detectedLocale := Some "fr"; analyzedPathname := "/" |}
  else if String.prefix "/fr/" p then
    {| detectedLocale := Some "fr";
       analyzedPathname := String.substring 3 (String.length p - 3) p |}
  else {| detectedLocale := None; analyzedPathname := p |}.

(** A server for the page [page] whose [render] ends as [outcome]. *)
Definition server (page : string)
    (provider : option (string → LocaleAnalysis))
    (outcome : completion unit) : Server string unit :=
  {| webServerConfig_pathname := page;
     i18nProvider := provider;
     render := λ _, outcome |}.

(** A check of header values in the manner of the platform's [Headers]:
    a value with a NUL, a line feed or a carriage return in it is refused,
    any other is stored as it is. *)
Fixpoint hasControl (s : string) : bool :=
  match s with
  | EmptyString => false
  | String c rest =>
      let n := nat_of_ascii c in
      (n =? 0)%nat || (n =? 10)%nat || (n =? 13)%nat || hasControl rest
  end.

Definition checkHeaderValue (value : string) : completion string :=
  if hasControl value then Throw (Error "Invalid header value")
  else Return value.

End Sample.

(** The same server with no locale provider configured. *)
Definition withoutI18n {Req Res : Type} (this : Server Req Res)
  : Server Req Res :=
  {| webServerConfig_pathname := webServerConfig_pathname this;
     i18nProvider := None;
     render := render this |}.

(** ** The constructor, the configuration getters, the page lookup *)

Inductive PagesType : Type := app | pages | root.

(** [options.webServerConfig], restricted to what the constructor and the
    getters read. *)
Record WebServerConfig (Route DynamicRoute CacheHandler : Type) : Type := {
  webServerConfig_pagesType : PagesType;
  webServerConfig_extendRenderOpts : gmap string value;
  webServerConfig_incrementalCacheHandler : option CacheHandler;
  webServerConfig_prerenderManifest :
    option (PrerenderManifest Route DynamicRoute);
}.
Arguments webServerConfig_pagesType {Route DynamicRoute CacheHandler} _.
Arguments webServerConfig_extendRenderOpts {Route DynamicRoute CacheHandler} _.
Arguments webServerConfig_incrementalCacheHandler
  {Route DynamicRoute CacheHandler} _.
Arguments webServerConfig_prerenderManifest
  {Route DynamicRoute CacheHandler} _.

(** What the base server keeps in [this] and [getIncrementalCache] reads:
    the location of [this.renderOpts], [this.hasAppDir],
    [this.minimalMode] and [this.nextConfig.experimental]. *)
Record BaseState : Type := {
  this_renderOpts : loc;
  this_hasAppDir : bool;
  this_minimalMode : bool;
  nextConfig_experimental : gmap string value;
}.

(** The argument of [new IncrementalCache(...)], lines 68-83.
    [getPrerenderManifest] is a closure over [this]: it reads the store it
    is called in. *)
Record IncrementalCacheOptions
    (Route DynamicRoute CacheHandler Headers : Type) : Type := {
  ic_dev : bool;
  ic_requestHeaders : Headers;
  ic_requestProtocol : string;
  ic_appDir : bool;
  ic_allowedRevalidateHeaderKeys : value;
  ic_minimalMode : bool;
  ic_fetchCache : bool;
  ic_fetchCacheKeyPrefix : value;
  ic_maxMemoryCacheSize : value;
  ic_flushToDisk : bool;
  ic_CurCacheHandler : option CacheHandler;
  ic_getPrerenderManifest : store → PrerenderManifest Route DynamicRoute;
}.
Arguments ic_dev {Route DynamicRoute CacheHandler Headers} _.
Arguments ic_requestHeaders {Route DynamicRoute CacheHandler Headers} _.
Arguments ic_requestProtocol {Route DynamicRoute CacheHandler Headers} _.
Arguments ic_appDir {Route DynamicRoute CacheHandler Headers} _.
Arguments ic_allowedRevalidateHeaderKeys
  {Route DynamicRoute CacheHandler Headers} _.
Arguments ic_minimalMode {Route DynamicRoute CacheHandler Headers} _.
Arguments ic_fetchCache {Route DynamicRoute CacheHandler Headers} _.
Arguments ic_fetchCacheKeyPrefix {Route DynamicRoute CacheHandler Headers} _.
Arguments ic_maxMemoryCacheSize {Route DynamicRoute CacheHandler Headers} _.
Arguments ic_flushToDisk {Route DynamicRoute CacheHandler Headers} _.
Arguments ic_CurCacheHandler {Route DynamicRoute CacheHandler Headers} _.
Arguments ic_getPrerenderManifest
  {Route DynamicRoute CacheHandler Headers} _ _.

Section Configuration.

Context {Route DynamicRoute CacheHandler : Type}.
Variable config : WebServerConfig Route DynamicRoute CacheHandler.

(** Lines 49-57: after [super(options)] has put the base options at
    [renderOpts], [extendRenderOpts] is assigned onto them in place. *)
Definition constructor (σ : store) (renderOpts : loc) : store :=
  assignAt σ renderOpts (webServerConfig_extendRenderOpts config).

(** Lines 89-91. *)
Definition getBuildId : value :=
  get (webServerConfig_extendRenderOpts config) "buildId".

(** Lines 93-95. *)
Definition getHasAppDir : bool :=
  match webServerConfig_pagesType config with
  | app => true
  | _ => false
  end.

(** Lines 130-132. *)
Definition getNextFontManifest : value :=
  get (webServerConfig_extendRenderOpts config) "nextFontManifest".

(** Lines 59-84. *)
Definition getIncrementalCache {Headers : Type} (σ : store)
    (this : BaseState) (requestHeaders : Headers)
  : IncrementalCacheOptions Route DynamicRoute CacheHandler Headers :=
  let dev := truthy (get (deref σ (this_renderOpts this)) "dev") in
  {| ic_dev := dev;
     ic_requestHeaders := requestHeaders;
     ic_requestProtocol := "https";
     ic_appDir := this_hasAppDir this;
     ic_allowedRevalidateHeaderKeys :=
       get (nextConfig_experimental this) "allowedRevalidateHeaderKeys";
     ic_minimalMode := this_minimalMode this;
     ic_fetchCache := true;
     ic_fetchCacheKeyPrefix :=
       get (nextConfig_experimental this) "fetchCacheKeyPrefix";
     ic_maxMemoryCacheSize :=
       get (nextConfig_experimental this) "isrMemoryCacheSize";
     ic_flushToDisk := false;
     ic_CurCacheHandler := webServerConfig_incrementalCacheHandler config;
     ic_getPrerenderManifest :=
       λ σ', getPrerenderManifest σ' (this_renderOpts this)
               (webServerConfig_prerenderManifest config) |}.

End Configuration.

(** What [findPageComponents] returns when the components load. *)
Record FoundPage (Components : Type) : Type := {
  found_components : Components;
  found_query : gmap string value;
}.
Arguments found_components {Components} _.
Arguments found_query {Components} _.

(** [{...(o || {})}]: the own properties of [o], none when [o] is
    undefined or null. *)
Definition spreadOrEmpty (o : option (gmap string value))
  : gmap string value :=
  default ∅ o.

(** Lines 292-312.  [loadComponents] is [this.routes.loadComponents], with
    [None] for a result that is null or undefined.  In the object literal the
    properties of [params] are spread after those of [query]. *)
Definition findPageComponents {Definition_ Components : Type}
    (loadComponents : Definition_ → option Components)
    (query params : option (gmap string value)) (definition : Definition_)
  : option (FoundPage Components) :=
  match loadComponents definition with
  | None => None
  | Some components =>
      Some {| found_components := components;
              found_query := spreadOrEmpty params ∪ spreadOrEmpty query |}
  end.


(** * Properties *)

(** ** JavaScript values *)

Lemma isEmpty_true (s : string) : isEmpty s = true ↔ s = "".
Proof. destruct s; simpl; split; congruence. Qed.

Lemma isEmpty_false (s : string) : isEmpty s = false ↔ s ≠ "".
Proof. rewrite <- isEmpty_true. destruct (isEmpty s); split; congruence. Qed.

Lemma truthyStr_true (o : option string) :
  truthyStr o = true ↔ ∃ s, o = Some s ∧ s ≠ "".
Proof.
  destruct o as [s|]; simpl.
  - rewrite negb_true_iff, isEmpty_false. split.
    + intros H. exists s. done.
    + intros (s' & [= <-] & H). done.
  - split; [done | intros (s & H & _); done].
Qed.

(** ** handleCatchallRenderRequest *)

Section CatchallRenderFacts.

Context {Req Res RouteRegex : Type}.
Variable I : Imports Req RouteRegex.
Variable this : Server Req Res.

(** The locale annotation writes [__nextLocale] and nothing else. *)
Lemma annotateLocale_other (p : string) (q : query_t) (k : string) :
  k ≠ "__nextLocale" → annotateLocale this p q !! k = q !! k.
Proof.
  intros Hk. unfold annotateLocale.
  destruct (i18nProvider this) as [analyze|]; [|done].
  destruct (detectedLocale (analyze p)) as [l|]; [|done].
  destruct (truthyStr (Some l)); [|done].
  by rewrite lookup_insert_ne.
Qed.

(** A request with a pathname reaches [this.render]; the call it makes
    is spelled out. *)
Lemma renderCall_reached (req : Req) (res : Res) (parsedUrl : ParsedUrl)
    (p : string) :
  pathname parsedUrl = Some p → p ≠ "" →
  let p2 := removeTrailingSlash I
              (fst (interpolatePage I this req p (query parsedUrl))) in
  let q1 := annotateLocale this p2 (query parsedUrl) in
  renderCall I this req res parsedUrl =
    Return (truthy (get (query parsedUrl) "_nextBubbleNoFallback"),
            {| rc_req := snd (interpolatePage I this req p (query parsedUrl));
               rc_res := res; rc_pathname := p2;
               rc_query := stripBubbleFlag I p2 q1;
               rc_parsedUrl :=
                 {| pathname := Some p;
                    query := stripBubbleFlag I p2 q1 |};
               rc_internal := true |}).
Proof.
  intros Hp Hne. apply isEmpty_false in Hne. unfold renderCall.
  rewrite Hp, Hne.
  destruct (interpolatePage I this req p (query parsedUrl)) as [p1 req1].
  simpl. unfold get. by rewrite annotateLocale_other.
Qed.

(** Without a pathname the handler throws before it renders. *)
Lemma renderCall_no_pathname (req : Req) (res : Res) (q : query_t) :
  renderCall I this req res {| pathname := None; query := q |}
  = Throw (Error "pathname is undefined").
Proof. reflexivity. Qed.

End CatchallRenderFacts.

(** C1: a request with a pathname reaches [this.render], and the handler
    ends by what [render] does and by the truthiness of the query's
    [_nextBubbleNoFallback]: when [render] throws [NoFallbackError] and the
    flag is truthy, the handler returns [{finished: false}] and throws
    nothing; when it throws [NoFallbackError] and the flag is absent or
    falsy, that error propagates; any other error propagates whatever the
    flag is. *)
Theorem handleCatchallRenderRequest_bubbles
    {Req Res RouteRegex : Type} (I : Imports Req RouteRegex)
    (this : Server Req Res) (req : Req) (res : Res) (parsedUrl : ParsedUrl)
    (p : string) :
  pathname parsedUrl = Some p → p ≠ "" →
  ∃ call : RenderCall Req Res,
    let flag := truthy (get (query parsedUrl) "_nextBubbleNoFallback") in
    renderCall I this req res parsedUrl = Return (flag, call) ∧
    (render this call = Throw NoFallbackError → flag = true →
     handleCatchallRenderRequest I this req res parsedUrl
     = Return {| finished := false |}) ∧
    (render this call = Throw NoFallbackError → flag = false →
     handleCatchallRenderRequest I this req res parsedUrl
     = Throw NoFallbackError) ∧
    (∀ message, render this call = Throw (Error message) →
     handleCatchallRenderRequest I this req res parsedUrl
     = Throw (Error message)).
Proof.
  intros Hp Hne.
  pose proof (renderCall_reached I this req res parsedUrl p Hp Hne) as Hcall.
  simpl in Hcall. eexists. split; [exact Hcall|].
  unfold handleCatchallRenderRequest. rewrite Hcall.
  repeat split.
  - intros -> ->. reflexivity.
  - intros -> ->. reflexivity.
  - intros message ->. reflexivity.
Qed.

(** The flag set, [NoFallbackError] thrown: [{finished: false}]. *)
Lemma handleCatchallRenderRequest_bubbles_witness :
  handleCatchallRenderRequest Sample.imports
    (Sample.server "/about" None (Throw NoFallbackError)) "/about" ()
    {| pathname := Some "/about";
       query := <["_nextBubbleNoFallback" := VStr "1"]> ∅ |}
  = Return {| finished := false |}.
Proof.
  destruct (handleCatchallRenderRequest_bubbles Sample.imports
              (Sample.server "/about" None (Throw NoFallbackError))
              "/about" ()
              {| pathname := Some "/about";
                 query := <["_nextBubbleNoFallback" := VStr "1"]> ∅ |}
              "/about" eq_refl ltac:(discriminate))
    as (call & _ & Hbubble & _).
  apply Hbubble; reflexivity.
Defined.

(** C2, as the handler has it: the flag is deleted from the query only
    when the pathname handed to [render] is an API route; for every other
    pathname the flag reaches [render] as it came in.  [query] and
    [parsedUrl.query] are the same object, so both arguments agree. *)
Theorem bubble_flag_deleted_for_api_routes
    {Req Res RouteRegex : Type} (I : Imports Req RouteRegex)
    (this : Server Req Res) (req : Req) (res : Res) (parsedUrl : ParsedUrl)
    (flag : bool) (call : RenderCall Req Res) :
  renderCall I this req res parsedUrl = Return (flag, call) →
  rc_query call !! "_nextBubbleNoFallback"
  = (if isAPIRoute I (rc_pathname call) then None
     else query parsedUrl !! "_nextBubbleNoFallback") ∧
  query (rc_parsedUrl call) = rc_query call.
Proof.
  unfold renderCall.
  destruct (pathname parsedUrl) as [p|]; [|done].
  destruct (isEmpty p); [done|].
  destruct (interpolatePage I this req p (query parsedUrl)) as [p1 req1].
  intros [= _ <-]. simpl. split; [|done].
  unfold stripBubbleFlag.
  destruct (isAPIRoute I (removeTrailingSlash I p1)).
  - apply lookup_delete_eq.
  - by apply annotateLocale_other.
Qed.

(** On an API route the flag is gone when [render] is called. *)
Lemma bubble_flag_deleted_for_api_routes_witness :
  ∃ call,
    renderCall Sample.imports (Sample.server "/api/hello" None (Return ()))
      "/api/hello" ()
      {| pathname := Some "/api/hello";
         query := <["_nextBubbleNoFallback" := VStr "1"]> ∅ |}
    = Return (true, call) ∧
    rc_query call !! "_nextBubbleNoFallback" = None.
Proof.
  eexists. split; [reflexivity|].
  match goal with
  | |- rc_query ?call !! _ = _ =>
      exact (proj1 (bubble_flag_deleted_for_api_routes Sample.imports
                      (Sample.server "/api/hello" None (Return ()))
                      "/api/hello" ()
                      {| pathname := Some "/api/hello";
                         query := <["_nextBubbleNoFallback" := VStr "1"]> ∅ |}
                      true call eq_refl))
  end.
Defined.

(** C2, as stated, fails: for the page [/about], which is no API route,
    [render] is called with a query that still holds the flag. *)
Lemma bubble_flag_reaches_render :
  ∃ call,
    renderCall Sample.imports (Sample.server "/about" None (Return ()))
      "/about" ()
      {| pathname := Some "/about";
         query := <["_nextBubbleNoFallback" := VStr "1"]> ∅ |}
    = Return (true, call) ∧
    Sample.isAPIRoute (rc_pathname call) = false ∧
    rc_query call !! "_nextBubbleNoFallback" = Some (VStr "1") ∧
    query (rc_parsedUrl call) !! "_nextBubbleNoFallback" = Some (VStr "1").
Proof. eexists. split; [reflexivity|]. vm_compute. done. Qed.

(** C3, as the handler has it: for a request with a pathname, the pathname
    handed to [render] is [removeTrailingSlash] of the page the route was
    matched to when the incoming pathname equals that page or the page is
    not dynamic, and of the page interpolated with the query otherwise.  So
    for a page that is not dynamic it does not depend on the incoming
    pathname, with or without a trailing slash. *)
Theorem render_pathname_normalized
    {Req Res RouteRegex : Type} (I : Imports Req RouteRegex)
    (this : Server Req Res) (req : Req) (res : Res) (parsedUrl : ParsedUrl)
    (p : string) :
  pathname parsedUrl = Some p → p ≠ "" →
  ∃ flag call,
    let page := webServerConfig_pathname this in
    renderCall I this req res parsedUrl = Return (flag, call) ∧
    rc_pathname call
    = removeTrailingSlash I
        (if decide (p = page) then page
         else if isDynamicRoute I page
              then interpolateDynamicPath I page (query parsedUrl)
                     (getNamedRouteRegex I page false)
              else page) ∧
    (isDynamicRoute I page = false →
     rc_pathname call = removeTrailingSlash I page).
Proof.
  intros Hp Hne.
  pose proof (renderCall_reached I this req res parsedUrl p Hp Hne) as Hcall.
  simpl in Hcall. do 2 eexists. split; [exact Hcall|]. simpl.
  unfold interpolatePage.
  destruct (decide (p ≠ webServerConfig_pathname this)) as [Hd|Hd].
  - rewrite decide_False by done.
    destruct (isDynamicRoute I (webServerConfig_pathname this)); done.
  - apply dec_stable in Hd. subst p. rewrite decide_True by done. done.
Qed.

(** [/blog/] and [/blog] both render as [/blog]. *)
Lemma render_pathname_normalized_witness :
  ∃ flag call,
    renderCall Sample.imports (Sample.server "/blog" None (Return ()))
      "/blog/" () {| pathname := Some "/blog/"; query := ∅ |}
    = Return (flag, call) ∧
    rc_pathname call = "/blog".
Proof.
  destruct (render_pathname_normalized Sample.imports
              (Sample.server "/blog" None (Return ()))
              "/blog/" () {| pathname := Some "/blog/"; query := ∅ |}
              "/blog/" eq_refl ltac:(discriminate))
    as (flag & call & Hcall & _ & Hstatic).
  exists flag, call. split; [exact Hcall|].
  apply Hstatic. reflexivity.
Defined.

(** C3, as stated, fails: when the incoming pathname is the dynamic page
    itself, [render] gets the page with its [[slug]] segment, although the
    query has the value for it; the same pathname with a trailing slash is
    interpolated, so the two do not render the same pathname. *)
Lemma dynamic_page_pathname_not_interpolated :
  let this := Sample.server "/blog/[slug]" None (Return ()) in
  let q : query_t := <["slug" := VStr "hello"]> ∅ in
  Sample.isDynamicRoute (webServerConfig_pathname this) = true ∧
  ∃ flag call flag' call',
    renderCall Sample.imports this "/blog/[slug]" ()
      {| pathname := Some "/blog/[slug]"; query := q |}
    = Return (flag, call) ∧
    rc_pathname call = "/blog/[slug]" ∧
    Sample.hasUnresolvedParam (rc_pathname call) = true ∧
    renderCall Sample.imports this "/blog/[slug]/" ()
      {| pathname := Some "/blog/[slug]/"; query := q |}
    = Return (flag', call') ∧
    rc_pathname call' = "/blog/hello" ∧
    rc_pathname call ≠ rc_pathname call'.
Proof.
  simpl. split; [reflexivity|].
  do 4 eexists. split; [reflexivity|].
  split; [reflexivity|]. split; [reflexivity|].
  split; [reflexivity|]. split; [reflexivity|]. discriminate.
Qed.


(** C9, as the handler has it: the locale step leaves the pathname alone.
    Against the same server without a provider, the pathname handed to
    [render] is the same (no prefix is stripped); when the provider
    detects a locale for that pathname, the query handed to [render] is
    the other one with [__nextLocale] set to the locale; when it detects
    none, the query is the same too. *)
Theorem locale_recorded_pathname_kept
    {Req Res RouteRegex : Type} (I : Imports Req RouteRegex)
    (this : Server Req Res) (analyze : string → LocaleAnalysis)
    (req : Req) (res : Res) (parsedUrl : ParsedUrl) (p : string) :
  i18nProvider this = Some analyze →
  pathname parsedUrl = Some p → p ≠ "" →
  ∃ flag call call',
    renderCall I this req res parsedUrl = Return (flag, call) ∧
    renderCall I (withoutI18n this) req res parsedUrl = Return (flag, call') ∧
    rc_pathname call = rc_pathname call' ∧
    (∀ locale,
       detectedLocale (analyze (rc_pathname call)) = Some locale →
       locale ≠ "" →
       rc_query call = <["__nextLocale" := VStr locale]> (rc_query call')) ∧
    (truthyStr (detectedLocale (analyze (rc_pathname call))) = false →
     rc_query call = rc_query call').
Proof.
  intros Hprov Hp Hne.
  pose proof (renderCall_reached I this req res parsedUrl p Hp Hne) as Hcall.
  pose proof (renderCall_reached I (withoutI18n this) req res parsedUrl p
                Hp Hne) as Hcall'.
  simpl in Hcall, Hcall'.
  do 3 eexists. split; [exact Hcall|]. split; [exact Hcall'|].
  simpl. split; [reflexivity|].
  change (interpolatePage I (withoutI18n this)) with (interpolatePage I this).
  set (p2 := removeTrailingSlash I
               (interpolatePage I this req p (query parsedUrl)).1).
  unfold annotateLocale. rewrite Hprov. simpl.
  unfold stripBubbleFlag. split.
  - intros locale Hloc Hl. rewrite Hloc.
    apply isEmpty_false in Hl. simpl. rewrite Hl. simpl.
    destruct (isAPIRoute I p2); [|done].
    by rewrite delete_insert_ne.
  - intros Hfalsy.
    destruct (detectedLocale (analyze p2)) as [l|]; [|done].
    rewrite Hfalsy. done.
Qed.

(** The provider finds [fr] in [/fr/about]: the query gets
    [__nextLocale], the pathname stays [/fr/about]. *)
Lemma locale_recorded_pathname_kept_witness :
  ∃ flag call,
    renderCall Sample.imports
      (Sample.server "/fr/about" (Some Sample.analyzeFr) (Return ()))
      "/fr/about" () {| pathname := Some "/fr/about"; query := ∅ |}
    = Return (flag, call) ∧
    rc_query call !! "__nextLocale" = Some (VStr "fr").
Proof.
  destruct (locale_recorded_pathname_kept Sample.imports
              (Sample.server "/fr/about" (Some Sample.analyzeFr) (Return ()))
              Sample.analyzeFr
              "/fr/about" () {| pathname := Some "/fr/about"; query := ∅ |}
              "/fr/about" eq_refl eq_refl ltac:(discriminate))
    as (flag & call & call' & Hcall & Hcall' & Hpath & Hdetected & _).
  exists flag, call. split; [exact Hcall|].
  rewrite (Hdetected "fr").
  - apply lookup_insert_eq.
  - injection Hcall as _ <-. reflexivity.
  - discriminate.
Defined.

(** C9, as stated, fails: the provider detects [fr] in [/fr/about] and
    gives [/about] as the path without the prefix, yet [render] is called
    with [/fr/about]. *)
Lemma locale_prefix_not_stripped :
  Sample.analyzeFr "/fr/about"
  = {| detectedLocale := Some "fr"; analyzedPathname := "/about" |} ∧
  ∃ flag call,
    renderCall Sample.imports
      (Sample.server "/fr/about" (Some Sample.analyzeFr) (Return ()))
      "/fr/about" () {| pathname := Some "/fr/about"; query := ∅ |}
    = Return (flag, call) ∧
    rc_pathname call = "/fr/about" ∧
    rc_pathname call ≠ "/about" ∧
    rc_query call !! "__nextLocale" = Some (VStr "fr").
Proof.
  split; [reflexivity|]. do 2 eexists.
  split; [reflexivity|]. split; [reflexivity|].
  split; [discriminate|]. reflexivity.
Qed.

(** ** renderHTML *)

Lemma edgeOverlay_lookup (k : string) :
  edgeOverlay !! k
  = if decide (k = "disableOptimizedLoading") then Some (VBool true)
    else if decide (k = "runtime") then Some (VStr "experimental-edge")
    else None.
Proof.
  unfold edgeOverlay.
  rewrite lookup_insert. destruct (decide ("disableOptimizedLoading" = k)).
  - by rewrite decide_True.
  - rewrite decide_False by done.
    rewrite lookup_insert. destruct (decide ("runtime" = k)).
    + by rewrite decide_True.
    + by rewrite decide_False.
Qed.

Lemma deref_assignAt (σ : store) (l : loc) (source : gmap string value) :
  deref (assignAt σ l source) l = assign (deref σ l) source.
Proof. unfold deref at 1, assignAt. by rewrite lookup_insert_eq. Qed.

(** The overlay read back from the object it was assigned onto. *)
Lemma deref_overlay (σ : store) (l : loc) (k : string) :
  deref (assignAt σ l edgeOverlay) l !! k
  = if decide (k = "disableOptimizedLoading") then Some (VBool true)
    else if decide (k = "runtime") then Some (VStr "experimental-edge")
    else deref σ l !! k.
Proof.
  rewrite deref_assignAt. unfold assign.
  rewrite lookup_union, edgeOverlay_lookup.
  repeat case_decide; try done.
  - by destruct (deref σ l !! k).
  - by destruct (deref σ l !! k).
  - by rewrite (left_id_L None _).
Qed.

(** Assigning the overlay a second time changes nothing. *)
Lemma assignAt_overlay_idemp (σ : store) (l : loc) :
  assignAt (assignAt σ l edgeOverlay) l edgeOverlay
  = assignAt σ l edgeOverlay.
Proof.
  unfold assignAt at 1. rewrite deref_assignAt.
  unfold assignAt. rewrite insert_insert_eq. f_equal.
  unfold assign. by rewrite (assoc_L _), (idemp_L _).
Qed.

Lemma renderAll_overlay {Req Res : Type} (σ : store) (l : loc)
    (requests : list (Req * Res * string * query_t)) :
  renderAll (assignAt σ l edgeOverlay) l requests = assignAt σ l edgeOverlay.
Proof.
  induction requests as [|[[[req res] p] q] rest IH]; [done|].
  simpl. by rewrite assignAt_overlay_idemp.
Qed.

(** C7: the pathname [renderHTML] hands to the rendering function is
    [/404] when the incoming one is the not-found marker of the runtime
    ([/not-found] when [renderOpts.dev] is truthy, [/_not-found]
    otherwise), and the incoming pathname itself in every other case; so it
    is rewritten if and only if it is the marker. *)
Theorem renderHTML_not_found_pathname
    {Req Res Result : Type}
    (renderToHTML : RenderToHTMLCall Req Res → store → Result)
    (σ : store) (req : Req) (res : Res) (p : string) (q : query_t)
    (renderOpts : loc) :
  let marker :=
    if truthy (get (deref σ renderOpts) "dev") then "/not-found"
    else "/_not-found" in
  let call := fst (renderToHTMLCall σ req res p q renderOpts) in
  let σ' := snd (renderToHTMLCall σ req res p q renderOpts) in
  renderHTML (Some renderToHTML) σ req res p q renderOpts
  = Return (renderToHTML call σ', σ') ∧
  rh_pathname call = (if decide (p = marker) then "/404" else p) ∧
  (rh_pathname call ≠ p ↔ p = marker).
Proof.
  simpl. split; [reflexivity|]. split; [reflexivity|].
  unfold notFoundMarker. case_decide as Hp; split; try done.
  intros _. rewrite Hp.
  destruct (truthy (get (deref σ renderOpts) "dev")); discriminate.
Qed.

(** C10, as the code has it: [renderHTML] hands the rendering function
    the very [renderOpts] object it was given as its parameter, after
    assigning the overlay onto it in place.  In the store after the call,
    and after any further run of requests that are handed the same object,
    that object has [disableOptimizedLoading] true and [runtime]
    ['experimental-edge'], every other property of it is what it was before
    the first call, and no other object has changed: the server's own
    [renderOpts] is touched only when it is the object handed in. *)
Theorem renderHTML_overlays_shared_renderOpts
    {Req Res Result : Type}
    (renderToHTML : RenderToHTMLCall Req Res → store → Result)
    (σ : store) (req : Req) (res : Res) (p : string)
    (q : query_t) (renderOpts : loc)
    (later : list (Req * Res * string * query_t)) :
  let call := fst (renderToHTMLCall σ req res p q renderOpts) in
  let σ' := snd (renderToHTMLCall σ req res p q renderOpts) in
  let σ'' := renderAll σ' renderOpts later in
  renderHTML (Some renderToHTML) σ req res p q renderOpts
  = Return (renderToHTML call σ', σ') ∧
  rh_renderOpts call = renderOpts ∧
  σ'' = renderAll σ renderOpts ((req, res, p, q) :: later) ∧
  get (deref σ'' renderOpts) "disableOptimizedLoading" = VBool true ∧
  get (deref σ'' renderOpts) "runtime" = VStr "experimental-edge" ∧
  (∀ k, k ≠ "disableOptimizedLoading" → k ≠ "runtime" →
        deref σ'' renderOpts !! k = deref σ renderOpts !! k) ∧
  (∀ l, l ≠ renderOpts → σ'' !! l = σ !! l).
Proof.
  simpl. rewrite renderAll_overlay.
  split; [reflexivity|]. split; [reflexivity|]. split; [reflexivity|].
  unfold get. rewrite !deref_overlay. simpl.
  split; [reflexivity|]. split; [reflexivity|]. split.
  - intros k H1 H2. rewrite deref_overlay. by rewrite !decide_False.
  - intros l Hl. unfold assignAt. by rewrite lookup_insert_ne.
Qed.

(** C10, as stated, fails when the caller hands [renderHTML] a copy of
    the options: [renderHTML] never reads [this.renderOpts], so the
    server's own object stays as it was and only the copy is overlaid. *)
Lemma renderHTML_leaves_server_renderOpts :
  let this := {| this_renderOpts := 1%positive; this_hasAppDir := true;
                 this_minimalMode := false;
                 nextConfig_experimental := ∅ |} in
  let shared : gmap string value := <["buildId" := VStr "b1"]> ∅ in
  let σ : store := <[1%positive := shared]> (<[2%positive := shared]> ∅) in
  let call := fst (renderToHTMLCall σ () () "/about" ∅ 2%positive) in
  let σ' := snd (renderToHTMLCall σ () () "/about" ∅ 2%positive) in
  rh_renderOpts call ≠ this_renderOpts this ∧
  get (deref σ' (rh_renderOpts call)) "runtime" = VStr "experimental-edge" ∧
  deref σ' (this_renderOpts this) = shared ∧
  get (deref σ' (this_renderOpts this)) "runtime" = VUndefined ∧
  get (deref σ' (this_renderOpts this)) "disableOptimizedLoading"
  = VUndefined.
Proof.
  cbv zeta. split; [discriminate|]. split; [reflexivity|].
  split; [reflexivity|]. split; reflexivity.
Qed.

(** ** getPrerenderManifest *)

(** C8: with a manifest supplied and [dev] not truthy, that manifest is
    returned as it is; with [dev] truthy or no manifest supplied, the
    development manifest is: version [-1], no routes, no dynamic routes, no
    not-found routes, and the preview mode id ['development-id']. *)
Theorem getPrerenderManifest_spec
    {Route DynamicRoute : Type} (σ : store) (renderOpts : loc)
    (prerenderManifest : option (PrerenderManifest Route DynamicRoute)) :
  let dev := truthy (get (deref σ renderOpts) "dev") in
  let m := getPrerenderManifest σ renderOpts prerenderManifest in
  (∀ supplied, prerenderManifest = Some supplied → dev = false →
               m = supplied) ∧
  (dev = true ∨ prerenderManifest = None →
   version m = (-1)%Z ∧ routes m = ∅ ∧ dynamicRoutes m = ∅ ∧
   notFoundRoutes m = [] ∧
   preview m !! "previewModeId" = Some "development-id").
Proof.
  simpl. unfold getPrerenderManifest. split.
  - intros supplied -> ->. reflexivity.
  - intros [Hdev | ->].
    + rewrite Hdev. by destruct prerenderManifest.
    + done.
Qed.

(** ** sendRenderResult: the streaming path *)

Section StreamFacts.

Import Stream.

Lemma run_app (r : reaction) (s : state) (es es' : list event) :
  run r s (es ++ es') = run r (run r s es) es'.
Proof. unfold run. by rewrite fold_left_app. Qed.

(** Until the stream closes, nothing is queued, no listener is called and
    nothing is reported. *)
Lemma run_open (r : reaction) (s : state) (es : list event) :
  forallb (λ e, negb (closes e)) es = true →
  queued s = None →
  closed (run r s es) = closed s ∧
  queued (run r s es) = None ∧
  invoked (run r s es) = invoked s ∧
  unhandled (run r s es) = unhandled s.
Proof.
  revert s. induction es as [|e es IH]; intros s Hes Hq; [done|].
  simpl in Hes. apply andb_true_iff in Hes as [He Hes]. simpl.
  assert (closed (step r s e) = closed s ∧ queued (step r s e) = None ∧
          invoked (step r s e) = invoked s ∧
          unhandled (step r s e) = unhandled s) as (<- & Hq' & <- & <-).
  { destruct e; simpl in *; try done.
    - by destruct (closed s) eqn:E; simpl; rewrite ?E.
    - unfold react. by rewrite Hq. }
  by apply IH.
Qed.

(** The close itself, with a reaction attached: the reaction is queued,
    and nothing is called yet. *)
Lemma settle_attached (o : settlement) (s : state) :
  closed s = None →
  let s' := settle attached o s in
  closed s' = Some o ∧ queued s' = Some o ∧
  innerClose s' = innerClose s ∧
  invoked s' = invoked s ∧ unhandled s' = unhandled s.
Proof. intros Hc. unfold settle, attached. by rewrite Hc. Qed.

(** Between the close and the microtask the listener may still change,
    but nothing is called and the reaction stays queued. *)
Lemma run_pending (r : reaction) (s : state) (es : list event)
    (o : settlement) :
  forallb (λ e, negb (isMicrotask e)) es = true →
  is_Some (closed s) → queued s = Some o →
  is_Some (closed (run r s es)) ∧
  queued (run r s es) = Some o ∧
  invoked (run r s es) = invoked s ∧
  unhandled (run r s es) = unhandled s.
Proof.
  revert s. induction es as [|e es IH]; intros s Hes Hc Hq; [done|].
  simpl in Hes. apply andb_true_iff in Hes as [He Hes]. simpl.
  assert (is_Some (closed (step r s e)) ∧ queued (step r s e) = Some o ∧
          invoked (step r s e) = invoked s ∧
          unhandled (step r s e) = unhandled s) as (Hc' & Hq' & <- & <-).
  { destruct Hc as [o' Ho'].
    destruct e; simpl in *; unfold settle; rewrite ?Ho'; simpl;
      rewrite ?Ho'; eauto; done. }
  by apply IH.
Qed.

(** The reaction, with [onClose] on both sides: the listener that is
    registered now is called. *)
Lemma react_attached (s : state) (o : settlement) :
  queued s = Some o →
  let s' := react attached s in
  closed s' = closed s ∧ queued s' = None ∧
  invoked s' = invoked s
               ++ match innerClose s with Some cb => [cb] | None => [] end ∧
  unhandled s' = unhandled s
                 ++ match innerClose s with
                    | Some cb => if cb_throws cb then [Derived] else []
                    | None => []
                    end.
Proof.
  intros Hq. unfold react, attached. rewrite Hq.
  destruct o; simpl; unfold onClose; simpl;
    destruct (innerClose s) as [cb|]; simpl;
    try destruct (cb_throws cb); simpl; by rewrite ?app_nil_r.
Qed.

(** Once the reaction has run, nothing more happens to the listeners: a
    promise settles once. *)
Lemma run_done (r : reaction) (s : state) (es : list event) :
  is_Some (closed s) → queued s = None →
  invoked (run r s es) = invoked s ∧
  unhandled (run r s es) = unhandled s.
Proof.
  revert s. induction es as [|e es IH]; intros s Hc Hq; [done|].
  simpl.
  assert (is_Some (closed (step r s e)) ∧ queued (step r s e) = None ∧
          invoked (step r s e) = invoked s ∧
          unhandled (step r s e) = unhandled s) as (Hc' & Hq' & <- & <-).
  { destruct Hc as [o' Ho'].
    destruct e; simpl in *; unfold settle, react;
      rewrite ?Ho', ?Hq; simpl; rewrite ?Ho'; eauto. }
  by apply IH.
Qed.

(** A run in which the stream closes and the reaction then runs: what has
    been called and reported at its end is decided by the listener that is
    registered when the reaction runs. *)
Lemma run_reaction (before between after : list event) (e : event) :
  forallb (λ e, negb (closes e)) before = true →
  closes e = true →
  forallb (λ e, negb (isMicrotask e)) between = true →
  let s := run attached initial
             (before ++ e :: between ++ Microtask :: after) in
  match innerClose (run attached initial (before ++ e :: between)) with
  | Some cb =>
      invoked s = [cb] ∧
      unhandled s = (if cb_throws cb then [Derived] else [])
  | None => invoked s = [] ∧ unhandled s = []
  end.
Proof.
  intros Hbefore He Hbetween. simpl.
  replace (before ++ e :: between ++ Microtask :: after)
    with ((before ++ e :: between) ++ Microtask :: after)
    by (by rewrite <- app_assoc).
  rewrite (run_app _ _ (before ++ e :: between)).
  rewrite (run_app _ _ before). simpl.
  destruct (run_open attached initial before Hbefore eq_refl)
    as (Hclosed & Hqueued & Hinvoked & Hunhandled).
  set (s0 := run attached initial before) in *.
  assert (∃ o, step attached s0 e = settle attached o s0) as [o ->].
  { destruct e; try discriminate; simpl; eauto. }
  destruct (settle_attached o s0 Hclosed) as (Hc1 & Hq1 & _ & Hi1 & Hu1).
  destruct (run_pending attached (settle attached o s0) between o
              Hbetween) as (Hc2 & Hq2 & Hi2 & Hu2);
    [by rewrite Hc1 | done |].
  fold (run attached (settle attached o s0) between) in *.
  set (s2 := run attached (settle attached o s0) between) in *.
  destruct (react_attached s2 o Hq2) as (Hc3 & Hq3 & Hi3 & Hu3).
  destruct (run_done attached (react attached s2) after)
    as (Hi4 & Hu4); [by rewrite Hc3 | done |].
  rewrite Hi4, Hu4, Hi3, Hu3, Hi2, Hu2, Hi1, Hu1.
  rewrite Hinvoked, Hunhandled. simpl.
  by destruct (innerClose s2) as [cb|].
Qed.

End StreamFacts.

(** C4: on the streaming path [onClose] is both the fulfilment and the
    rejection continuation of [writer.closed].  So when the stream closes,
    by [end] or by a cancellation, and the reaction then runs, the listener
    registered at that moment is called exactly once in the whole run,
    whatever comes before, in between and after; the rejection of
    [writer.closed] is never reported as unhandled, and nothing at all is
    reported unless the listener itself throws. *)
Theorem sendRenderResult_close_listener_once
    (generateETag : text → string)
    (checkHeaderValue : string → completion string)
    (res : Response) (options : SendOptions)
    (before between after : list Stream.event) (e : Stream.event)
    (cb : Stream.Callback) :
  isDynamic (result options) = true →
  sr_outcome (sendRenderResult generateETag checkHeaderValue res options)
  = Return () →
  forallb (λ e, negb (Stream.closes e)) before = true →
  Stream.closes e = true →
  forallb (λ e, negb (Stream.isMicrotask e)) between = true →
  Stream.innerClose
    (Stream.run Stream.attached Stream.initial (before ++ e :: between))
  = Some cb →
  sr_stream (sendRenderResult generateETag checkHeaderValue res options)
  = Some (Stream.initial,
          Stream.Then (Some Stream.onClose) (Some Stream.onClose)) ∧
  (let s := Stream.run Stream.attached Stream.initial
              (before ++ e :: between ++ Stream.Microtask :: after) in
   Stream.invoked s = [cb] ∧
   (Stream.WriterClosed ∉ Stream.unhandled s) ∧
   (Stream.cb_throws cb = false → Stream.unhandled s = [])).
Proof.
  intros Hdyn Hreturns Hbefore He Hbetween Hcb. split.
  { revert Hreturns. unfold sendRenderResult.
    destruct (sendHeaders checkHeaderValue options res) as [res1 [[]|err]];
      [|done].
    by rewrite Hdyn. }
  pose proof (run_reaction before between after e Hbefore He Hbetween)
    as Hrun.
  cbv zeta in Hrun. rewrite Hcb in Hrun. destruct Hrun as [Hinvoked Hunhandled].
  cbv zeta. rewrite Hinvoked, Hunhandled.
  split; [done|]. split.
  - destruct (Stream.cb_throws cb); [|apply not_elem_of_nil].
    intros Hin%list_elem_of_singleton. discriminate.
  - intros ->. done.
Qed.

(** A listener is registered and two chunks are written; the consumer
    cancels, and before the reaction runs the producer registers another
    listener; afterwards it still tries to end the stream.  The second
    listener is called, once. *)
Lemma sendRenderResult_close_listener_once_witness :
  let first := {| Stream.cb_id := 7; Stream.cb_throws := false |} in
  let second := {| Stream.cb_id := 8; Stream.cb_throws := false |} in
  let s := Stream.run Stream.attached Stream.initial
             ([Stream.On first; Stream.Write [104%N]; Stream.Write [105%N]]
              ++ Stream.Cancel
                 :: [Stream.On second]
                 ++ Stream.Microtask :: [Stream.End; Stream.Off second]) in
  Stream.invoked s = [second] ∧ Stream.unhandled s = [].
Proof.
  intros first second.
  set (res := {| headers := ∅; textBody := None; sent := false;
                 calls := [] |}).
  set (options := {| result := {| contentType := None; isDynamic := true;
                                  toUnchunkedString := [] |};
                     type := html; generateEtags := false;
                     poweredByHeader := false |}).
  assert (sr_outcome (sendRenderResult (λ _, "etag") Sample.checkHeaderValue
                        res options) = Return ()) as Hreturns
    by (vm_compute; reflexivity).
  destruct (sendRenderResult_close_listener_once (λ _, "etag")
              Sample.checkHeaderValue res options
              [Stream.On first; Stream.Write [104%N]; Stream.Write [105%N]]
              [Stream.On second]
              [Stream.End; Stream.Off second] Stream.Cancel second
              eq_refl Hreturns eq_refl eq_refl eq_refl eq_refl)
    as (_ & Honce & _ & Hnone).
  split; [exact Honce | exact (Hnone eq_refl)].
Defined.

(** Why not [finally]: the promise it returns is rejected when the stream
    is cancelled, and nothing handles that; the same holds for [then] with
    the fulfilment continuation alone. *)
Lemma finally_leaves_unhandled_rejection (cb : Stream.Callback) :
  Stream.unhandled
    (Stream.run (Stream.Finally Stream.onClose) Stream.initial
       [Stream.On cb; Stream.Cancel; Stream.Microtask])
  = [Stream.Derived] ∧
  Stream.unhandled
    (Stream.run (Stream.Then (Some Stream.onClose) None) Stream.initial
       [Stream.On cb; Stream.Cancel; Stream.Microtask])
  = [Stream.Derived] ∧
  Stream.unhandled
    (Stream.run Stream.NoReaction Stream.initial
       [Stream.On cb; Stream.Cancel; Stream.Microtask])
  = [Stream.WriterClosed].
Proof. destruct cb as [n []]; done. Qed.

(** The listener is read when the reaction runs, not when the stream
    closes: taken off in between it is not called, put on in between it
    is. *)
Lemma listener_read_when_reaction_runs (cb : Stream.Callback) :
  Stream.invoked
    (Stream.run Stream.attached Stream.initial
       [Stream.On cb; Stream.Cancel; Stream.Off cb; Stream.Microtask])
  = [] ∧
  Stream.invoked
    (Stream.run Stream.attached Stream.initial
       [Stream.Cancel; Stream.On cb; Stream.Microtask])
  = [cb].
Proof. destruct cb as [n []]; done. Qed.

(** Whatever happens to the stream, a listener is called at most once. *)
Lemma close_listener_at_most_once (es : list Stream.event) :
  (length (Stream.invoked (Stream.run Stream.attached Stream.initial es)) ≤ 1)%nat.
Proof.
  set (Inv := λ s : Stream.state,
         match Stream.closed s, Stream.queued s with
         | None, None | Some _, Some _ => Stream.invoked s = []
         | Some _, None => (length (Stream.invoked s) ≤ 1)%nat
         | None, Some _ => False
         end).
  assert (∀ s e, Inv s → Inv (Stream.step Stream.attached s e)) as Hstep.
  { intros s e. unfold Inv.
    destruct s as [listener [o|] [job|] chunks called reported];
      destruct e; simpl; try done;
      unfold Stream.react, Stream.attached, Stream.onClose; simpl;
      try destruct job; try destruct listener as [[n []]|]; simpl;
      try done; intros ->; simpl; lia. }
  assert (∀ s, Inv s → Inv (Stream.run Stream.attached s es)) as Hrun.
  { induction es as [|e es IH]; intros s Hs; [done|].
    simpl. apply IH. by apply Hstep. }
  specialize (Hrun Stream.initial eq_refl). unfold Inv in Hrun.
  destruct (Stream.closed _), (Stream.queued _); try done;
    rewrite ?Hrun; simpl; lia.
Qed.

(** ** sendRenderResult: headers and the buffered path *)

Lemma utf16Width_le_utf8Width (c : N) : (utf16Width c ≤ utf8Width c)%N.
Proof.
  unfold utf16Width, utf8Width.
  repeat match goal with
         | |- context [(?a <? ?b)%N] => destruct (N.ltb_spec a b)
         end; lia.
Qed.

Lemma utf16Width_lt_utf8Width (c : N) :
  (128 ≤ c)%N → (utf16Width c < utf8Width c)%N.
Proof.
  unfold utf16Width, utf8Width. intros Hc.
  repeat match goal with
         | |- context [(?a <? ?b)%N] => destruct (N.ltb_spec a b)
         end; lia.
Qed.

Lemma charCount_le_byteLength (payload : text) :
  (charCount payload ≤ byteLength payload)%N.
Proof.
  induction payload as [|c payload IH]; simpl; [done|].
  pose proof (utf16Width_le_utf8Width c).
  unfold charCount, byteLength in *. simpl. lia.
Qed.

(** One character outside ASCII makes the payload longer in bytes than in
    characters. *)
Lemma charCount_lt_byteLength (payload : text) (c : N) :
  c ∈ payload → (128 ≤ c)%N → (charCount payload < byteLength payload)%N.
Proof.
  induction payload as [|c' payload IH]; intros Hin Hc.
  { by apply not_elem_of_nil in Hin. }
  change (utf16Width c' + charCount payload
          < utf8Width c' + byteLength payload)%N.
  apply elem_of_cons in Hin as [<- | Hin].
  - pose proof (utf16Width_lt_utf8Width c Hc).
    pose proof (charCount_le_byteLength payload). lia.
  - pose proof (utf16Width_le_utf8Width c').
    specialize (IH Hin Hc). lia.
Qed.

(** The calls [sendHeaders] makes, in order. *)
(** The calls [sendHeaders] makes, in order. *)
Lemma lower_names :
  lower "X-Edge-Runtime" = "x-edge-runtime" ∧
  lower "X-Powered-By" = "x-powered-by" ∧
  lower "Content-Type" = "content-type" ∧
  lower "Content-Length" = "content-length" ∧
  lower "ETag" = "etag".
Proof. repeat split. Qed.

Lemma sameKind_true (a b : ContentKind) : sameKind a b = true ↔ a = b.
Proof. destruct a, b; simpl; split; congruence. Qed.

Section ResponseFacts.

Variable generateETag : text → string.
Variable checkHeaderValue : string → completion string.

(** One [setHeader]: the call is recorded; the header of that name holds
    the stored value, or is gone when the value is refused; every other
    header, the body and the sent flag are as before. *)
Lemma setHeader_effect (name value key : string) (res : Response) :
  lower name = key →
  let res' := (setHeader checkHeaderValue name value res).1 in
  calls res' = calls res ++ [SetHeader name value] ∧
  textBody res' = textBody res ∧ sent res' = sent res ∧
  (∀ other, lower other ≠ key →
            getHeader res' other = getHeader res other) ∧
  getHeader res' name
  = match checkHeaderValue value with
    | Return stored => Some stored
    | Throw _ => None
    end ∧
  (setHeader checkHeaderValue name value res).2
  = match checkHeaderValue value with
    | Return _ => Return ()
    | Throw e => Throw e
    end.
Proof.
  intros <-. unfold setHeader, getHeader.
  destruct (checkHeaderValue value) as [stored|e]; simpl.
  - repeat split; [|apply lookup_insert_eq].
    intros other Hother. by rewrite lookup_insert_ne.
  - repeat split; [|apply lookup_delete_eq].
    intros other Hother. by rewrite lookup_delete_ne.
Qed.

(** The header phase: its calls are the marker header, then
    [X-Powered-By] when it is asked for, then [Content-Type] when none is
    there; a call is made only when those before it returned.  No header
    other than these three is touched, nor the body, nor the sent flag. *)
Lemma sendHeaders_effect (res : Response) (options : SendOptions) :
  let res1 := (sendHeaders checkHeaderValue options res).1 in
  let outcome := (sendHeaders checkHeaderValue options res).2 in
  ∃ hs : list (string * string),
    calls res1
    = calls res ++ SetHeader "X-Edge-Runtime" "1"
                   :: map (λ h, SetHeader h.1 h.2) hs ∧
    (∀ h, h ∈ hs →
          h = ("X-Powered-By", "Next.js")
          ∨ h = ("Content-Type", derivedContentType options)) ∧
    textBody res1 = textBody res ∧ sent res1 = sent res ∧
    (∀ other, lower other ≠ "x-edge-runtime" →
              lower other ≠ "x-powered-by" →
              lower other ≠ "content-type" →
              getHeader res1 other = getHeader res other).
Proof.
  simpl. unfold sendHeaders, andThen.
  destruct (setHeader_effect "X-Edge-Runtime" "1" "x-edge-runtime" res eq_refl)
    as (Hc1 & Hb1 & Hs1 & Ho1 & _ & Hr1).
  destruct (setHeader checkHeaderValue "X-Edge-Runtime" "1" res)
    as [res1 r1]. cbn [fst snd] in *.
  destruct r1 as [[]|e1]; cbn [fst snd].
  2:{ exists []. cbn [fst snd map].
      split; [done|]. split; [|split; [done|split; [done|]]].
      - intros h Hh. by apply elem_of_nil in Hh.
      - intros other H1 _ _. by apply Ho1. }
  set (second := if poweredByHeader options && sameKind (type options) html
                 then setHeader checkHeaderValue "X-Powered-By" "Next.js"
                 else skip).
  assert (∃ hs2 : list (string * string),
            calls (second res1).1
            = calls res1 ++ map (λ h, SetHeader h.1 h.2) hs2 ∧
            (∀ h, h ∈ hs2 → h = ("X-Powered-By", "Next.js")) ∧
            textBody (second res1).1 = textBody res1 ∧
            sent (second res1).1 = sent res1 ∧
            (∀ other, lower other ≠ "x-powered-by" →
                      getHeader (second res1).1 other
                      = getHeader res1 other))
    as (hs2 & Hc2 & Hin2 & Hb2 & Hs2 & Ho2).
  { unfold second.
    destruct (poweredByHeader options && sameKind (type options) html).
    - destruct (setHeader_effect "X-Powered-By" "Next.js" "x-powered-by"
                  res1 eq_refl) as (Hc & Hb & Hs & Ho & _).
      exists [("X-Powered-By", "Next.js")].
      split; [done|]. split; [|done].
      intros h Hh. by apply list_elem_of_singleton in Hh.
    - exists []. cbn [fst snd map skip]. rewrite app_nil_r.
      split; [done|]. split; [|done].
      intros h Hh. by apply elem_of_nil in Hh. }
  destruct (second res1) as [res2 r2]. cbn [fst snd] in *.
  assert (∀ other, lower other ≠ "x-edge-runtime" →
                   lower other ≠ "x-powered-by" →
                   getHeader res2 other = getHeader res other) as Ho12.
  { intros other H1 H2. rewrite Ho2, Ho1 by done. done. }
  destruct r2 as [[]|e2]; cbn [fst snd].
  2:{ exists hs2. rewrite Hc2, Hc1, <- app_assoc.
      split; [done|]. split; [|split; [congruence|split; [congruence|]]].
      - intros h Hh. left. by apply Hin2.
      - intros other H1 H2 _. by apply Ho12. }
  unfold sendContentType.
  destruct (negb (truthyStr (getHeader res2 "Content-Type"))).
  - destruct (setHeader_effect "Content-Type" (derivedContentType options)
                "content-type" res2 eq_refl) as (Hc3 & Hb3 & Hs3 & Ho3 & _).
    exists (hs2 ++ [("Content-Type", derivedContentType options)]).
    rewrite Hc3, Hc2, Hc1, map_app, <- !app_assoc.
    split; [done|]. split; [|split; [congruence|split; [congruence|]]].
    + intros h [Hh|Hh%list_elem_of_singleton]%elem_of_app.
      * left. by apply Hin2.
      * by right.
    + intros other H1 H2 H3. rewrite Ho3 by done. by apply Ho12.
  - exists hs2. unfold skip. cbn [fst snd]. rewrite Hc2, Hc1, <- app_assoc.
    split; [done|]. split; [|split; [congruence|split; [congruence|]]].
    + intros h Hh. left. by apply Hin2.
    + intros other H1 H2 _. by apply Ho12.
Qed.

(** The buffered phase: [Content-Length], then [ETag] when it is asked
    for, then the body; a call is made only when those before it
    returned.  No header other than these two is touched. *)
Lemma sendBuffered_effect (res : Response) (options : SendOptions) :
  let payload := toUnchunkedString (result options) in
  let res2 := (sendBuffered generateETag checkHeaderValue options res).1 in
  let outcome :=
    (sendBuffered generateETag checkHeaderValue options res).2 in
  ∃ (hs : list (string * string)) (tail : list ResCall),
    calls res2
    = calls res ++ SetHeader "Content-Length" (pretty (byteLength payload))
                   :: map (λ h, SetHeader h.1 h.2) hs ++ tail ∧
    (∀ h, h ∈ hs → h = ("ETag", generateETag payload)) ∧
    (((∃ v, ("ETag", v) ∈ hs)
      ↔ generateEtags options = true
        ∧ ∃ stored, checkHeaderValue (pretty (byteLength payload))
                    = Return stored)) ∧
    sent res2 = sent res ∧
    (∀ other, lower other ≠ "content-length" → lower other ≠ "etag" →
              getHeader res2 other = getHeader res other) ∧
    getHeader res2 "Content-Length"
    = match checkHeaderValue (pretty (byteLength payload)) with
      | Return stored => Some stored
      | Throw _ => None
      end ∧
    match outcome with
    | Return _ => tail = [Body payload] ∧ textBody res2 = Some payload
    | Throw _ => tail = [] ∧ textBody res2 = textBody res
    end.
Proof.
  simpl. unfold sendBuffered, andThen.
  set (payload := toUnchunkedString (result options)).
  destruct (setHeader_effect "Content-Length" (pretty (byteLength payload))
              "content-length" res eq_refl)
    as (Hc1 & Hb1 & Hs1 & Ho1 & Hv1 & Hr1).
  destruct (setHeader checkHeaderValue "Content-Length"
              (pretty (byteLength payload)) res) as [res1 r1].
  cbn [fst snd] in *.
  destruct r1 as [[]|e1]; cbn [fst snd].
  2:{ exists [], []. simpl. rewrite Hc1.
      split; [done|]. split; [|split; [|split; [done|split; [|done]]]].
      - intros h Hh. by apply elem_of_nil in Hh.
      - split.
        + intros [v Hv]. by apply elem_of_nil in Hv.
        + intros [_ [stored Hstored]]. rewrite Hstored in Hr1. done.
      - intros other H1 _. by apply Ho1. }
  assert (∃ stored, checkHeaderValue (pretty (byteLength payload))
                    = Return stored) as Haccepted.
  { destruct (checkHeaderValue (pretty (byteLength payload))); eauto.
    done. }
  destruct (generateEtags options).
  - destruct (setHeader_effect "ETag" (generateETag payload) "etag" res1
                eq_refl) as (Hc2 & Hb2 & Hs2 & Ho2 & Hv2 & Hr2).
    destruct (setHeader checkHeaderValue "ETag" (generateETag payload) res1)
      as [res2 r2]. cbn [fst snd] in *.
    assert (∀ other, lower other ≠ "content-length" → lower other ≠ "etag" →
                     getHeader res2 other = getHeader res other) as Ho12.
    { intros other H1 H2. rewrite Ho2, Ho1 by done. done. }
    assert (getHeader res2 "Content-Length"
            = match checkHeaderValue (pretty (byteLength payload)) with
              | Return stored => Some stored
              | Throw _ => None
              end) as Hlength by (by rewrite Ho2).
    destruct r2 as [[]|e2]; cbn [fst snd body].
    + exists [("ETag", generateETag payload)], [Body payload].
      simpl. rewrite Hc2, Hc1, <- !app_assoc.
      split; [done|]. split; [|split; [|split; [congruence|split; [|done]]]].
      * intros h Hh. by apply list_elem_of_singleton in Hh.
      * split; [done|]. intros _. eexists. by apply list_elem_of_singleton.
      * done.
    + exists [("ETag", generateETag payload)], [].
      simpl. rewrite Hc2, Hc1, <- !app_assoc.
      split; [done|]. split; [|split; [|split; [congruence|split; [|split]]]].
      * intros h Hh. by apply list_elem_of_singleton in Hh.
      * split; [done|]. intros _. eexists. by apply list_elem_of_singleton.
      * done.
      * done.
      * split; [done | congruence].
  - unfold skip, body. cbn [fst snd].
    exists [], [Body payload].
    simpl. rewrite Hc1, <- !app_assoc.
    split; [done|]. split; [|split; [|split; [done|split; [|done]]]].
    + intros h Hh. by apply elem_of_nil in Hh.
    + split.
      * intros [v Hv]. by apply elem_of_nil in Hv.
      * intros [[=] _].
    + intros other H1 _. by apply Ho1.
Qed.

End ResponseFacts.

(** [sendRenderResult] by its two phases. *)
Lemma sendRenderResult_phases (generateETag : text → string)
    (checkHeaderValue : string → completion string)
    (res : Response) (options : SendOptions) :
  let H := sendHeaders checkHeaderValue options res in
  let B := sendBuffered generateETag checkHeaderValue options H.1 in
  sendRenderResult generateETag checkHeaderValue res options
  = match H.2 with
    | Throw e =>
        {| sr_response := H.1; sr_stream := None; sr_outcome := Throw e |}
    | Return _ =>
        if isDynamic (result options) then
          {| sr_response := send H.1;
             sr_stream := Some (Stream.initial, Stream.attached);
             sr_outcome := Return () |}
        else
          match B.2 with
          | Throw e =>
              {| sr_response := B.1; sr_stream := None;
                 sr_outcome := Throw e |}
          | Return _ =>
              {| sr_response := send B.1; sr_stream := None;
                 sr_outcome := Return () |}
          end
    end.
Proof.
  simpl. unfold sendRenderResult.
  destruct (sendHeaders checkHeaderValue options res) as [res1 [[]|e]];
    cbn [fst snd]; [|done].
  destruct (isDynamic (result options)); [done|].
  by destruct (sendBuffered generateETag checkHeaderValue options res1)
    as [res2 [[]|e]].
Qed.

Ltac lower_names :=
  change (lower "X-Edge-Runtime") with "x-edge-runtime" in *;
  change (lower "X-Powered-By") with "x-powered-by" in *;
  change (lower "Content-Type") with "content-type" in *;
  change (lower "Content-Length") with "content-length" in *;
  change (lower "ETag") with "etag" in *.

(** The header phase when the two fixed values are accepted. *)
Lemma sendHeaders_accepted (checkHeaderValue : string → completion string)
    (res : Response) (options : SendOptions) (edge powered : string) :
  checkHeaderValue "1" = Return edge →
  checkHeaderValue "Next.js" = Return powered →
  let asked := poweredByHeader options && sameKind (type options) html in
  let res2 :=
    {| headers :=
         (if asked then <["x-powered-by" := powered]> else id)
           (<["x-edge-runtime" := edge]> (headers res));
       textBody := textBody res; sent := sent res;
       calls := calls res
                ++ SetHeader "X-Edge-Runtime" "1"
                   :: (if asked then [SetHeader "X-Powered-By" "Next.js"]
                       else []) |} in
  getHeader res2 "Content-Type" = getHeader res "Content-Type" ∧
  sendHeaders checkHeaderValue options res
  = if truthyStr (getHeader res "Content-Type") then (res2, Return ())
    else setHeader checkHeaderValue "Content-Type"
           (derivedContentType options) res2.
Proof.
  intros Hedge Hpowered. cbv zeta.
  assert (∀ h : gmap string string,
            (if poweredByHeader options && sameKind (type options) html
             then <["x-powered-by" := powered]> else id)
              (<["x-edge-runtime" := edge]> h) !! "content-type"
            = h !! "content-type") as Hframe.
  { intros h.
    destruct (poweredByHeader options && sameKind (type options) html);
      simpl; by rewrite !lookup_insert_ne. }
  split; [unfold getHeader; lower_names; apply Hframe|].
  unfold sendHeaders, andThen, setHeader at 1. rewrite Hedge.
  destruct (poweredByHeader options && sameKind (type options) html) eqn:Hasked.
  - unfold setHeader at 1. rewrite Hpowered.
    unfold sendContentType, getHeader, skip. lower_names. simpl.
    rewrite !lookup_insert_ne by done. rewrite <- app_assoc. simpl.
    by destruct (truthyStr (headers res !! "content-type")).
  - unfold skip at 1. unfold sendContentType, getHeader, skip.
    lower_names. simpl.
    rewrite !lookup_insert_ne by done.
    by destruct (truthyStr (headers res !! "content-type")).
Qed.

Ltac in_calls :=
  repeat (rewrite ?elem_of_app, ?elem_of_cons, ?elem_of_nil);
  repeat match goal with
         | |- context [if ?b then _ else _] => destruct b eqn:?
         end;
  repeat (rewrite ?elem_of_app, ?elem_of_cons, ?elem_of_nil);
  intuition (try discriminate; try congruence).

(** What comes after the header phase: calls that set [Content-Length] or
    [ETag], write the body or send; no other header is touched. *)
Lemma sendRenderResult_after_headers (generateETag : text → string)
    (checkHeaderValue : string → completion string)
    (res : Response) (options : SendOptions) :
  let res1 := (sendHeaders checkHeaderValue options res).1 in
  let res' :=
    sr_response (sendRenderResult generateETag checkHeaderValue res options) in
  ∃ tail : list ResCall,
    calls res' = calls res1 ++ tail ∧
    (∀ c, c ∈ tail →
          c = Send ∨ c = Body (toUnchunkedString (result options))
          ∨ (∃ v, c = SetHeader "Content-Length" v)
          ∨ (∃ v, c = SetHeader "ETag" v)) ∧
    (∀ other, lower other ≠ "content-length" → lower other ≠ "etag" →
              getHeader res' other = getHeader res1 other).
Proof.
  simpl. rewrite sendRenderResult_phases. cbv zeta.
  destruct (sendBuffered_effect generateETag checkHeaderValue
              (sendHeaders checkHeaderValue options res).1 options)
    as (hs & tail & Hcalls & Hhs & _ & _ & Hframe & _ & Htail).
  cbv zeta in *.
  destruct ((sendHeaders checkHeaderValue options res).2) as [[]|e].
  2:{ exists []. simpl. rewrite app_nil_r. split; [done|]. split; [|done].
      intros c Hc. by apply elem_of_nil in Hc. }
  destruct (isDynamic (result options)).
  { exists [Send]. simpl. split; [done|]. split; [|done].
    intros c ->%list_elem_of_singleton. by left. }
  assert (∀ c, c ∈ SetHeader "Content-Length"
                     (pretty (byteLength (toUnchunkedString (result options))))
                   :: map (λ h, SetHeader h.1 h.2) hs ++ tail ++ [Send] →
               c = Send ∨ c = Body (toUnchunkedString (result options))
               ∨ (∃ v, c = SetHeader "Content-Length" v)
               ∨ (∃ v, c = SetHeader "ETag" v)) as Hkinds.
  { intros c. rewrite elem_of_cons, !elem_of_app, list_elem_of_singleton.
    intros [-> | [Hc | [Hc | ->]]]; eauto.
    - apply list_elem_of_fmap in Hc as ([n v] & -> & Hh).
      apply Hhs in Hh as [= -> ->]. simpl. eauto.
    - destruct ((sendBuffered generateETag checkHeaderValue options
                   (sendHeaders checkHeaderValue options res).1).2);
        destruct Htail as [-> _].
      + apply list_elem_of_singleton in Hc as ->. eauto.
      + by apply elem_of_nil in Hc. }
  destruct ((sendBuffered generateETag checkHeaderValue options
               (sendHeaders checkHeaderValue options res).1).2)
    as [[]|e] eqn:Hout; simpl.
  - eexists. split; [|split; [|done]].
    + rewrite Hcalls, <- app_assoc. simpl. rewrite <- app_assoc. reflexivity.
    + done.
  - destruct Htail as [-> _].
    eexists. split; [|split; [|done]].
    + rewrite Hcalls. reflexivity.
    + intros c Hc. apply Hkinds. rewrite app_nil_r in Hc.
      rewrite elem_of_cons in *. rewrite !elem_of_app.
      destruct Hc as [->|Hc]; [by left | right; by left].
Qed.

(** After the header phase no call sets [X-Powered-By] or
    [Content-Type]. *)
Lemma tail_sets_no_header (payload : text) (tail : list ResCall)
    (name value : string) :
  (∀ c, c ∈ tail →
        c = Send ∨ c = Body payload
        ∨ (∃ v, c = SetHeader "Content-Length" v)
        ∨ (∃ v, c = SetHeader "ETag" v)) →
  name ≠ "Content-Length" → name ≠ "ETag" →
  SetHeader name value ∉ tail.
Proof.
  intros Hkinds Hlength Hetag Hin.
  destruct (Hkinds _ Hin) as [? | [? | [[v ?] | [v ?]]]]; congruence.
Qed.

(** C6, as the code has it: when the response accepts the two fixed
    values it is given first, [X-Powered-By] is set if and only if
    [poweredByHeader] is true and the type is ['html'], and then to
    ['Next.js'].  A [Content-Type] header that is there, under any casing
    of its name, and is not the empty string is never overwritten; when
    there is none, or an empty one, [setHeader] is called for
    [Content-Type] with the declared content type of the result if that is
    a non-empty string, and else with ['application/json'] for the type
    ['json'] and ['text/html; charset=utf-8'] for ['html'], and the header
    holds that value whenever the response accepts it. *)
Theorem sendRenderResult_header_rules
    (generateETag : text → string)
    (checkHeaderValue : string → completion string)
    (res : Response) (options : SendOptions) :
  (∃ stored, checkHeaderValue "1" = Return stored) →
  (∃ stored, checkHeaderValue "Next.js" = Return stored) →
  let res' :=
    sr_response (sendRenderResult generateETag checkHeaderValue res options) in
  let fallback :=
    match type options with
    | json => "application/json"
    | html => "text/html; charset=utf-8"
    end in
  let derived :=
    match contentType (result options) with
    | Some declared => if decide (declared = "") then fallback else declared
    | None => fallback
    end in
  ∃ new : list ResCall,
    calls res' = calls res ++ new ∧
    ((∃ v, SetHeader "X-Powered-By" v ∈ new)
     ↔ poweredByHeader options = true ∧ type options = html) ∧
    (∀ v, SetHeader "X-Powered-By" v ∈ new → v = "Next.js") ∧
    (∀ present, getHeader res "Content-Type" = Some present → present ≠ "" →
       getHeader res' "Content-Type" = Some present ∧
       ∀ v, SetHeader "Content-Type" v ∉ new) ∧
    (getHeader res "Content-Type" = None
     ∨ getHeader res "Content-Type" = Some "" →
       (∀ v, SetHeader "Content-Type" v ∈ new ↔ v = derived) ∧
       (∀ stored, checkHeaderValue derived = Return stored →
                  getHeader res' "Content-Type" = Some stored)).
Proof.
  intros [edge Hedge] [powered Hpowered]. cbv zeta.
  assert (derivedContentType options
          = match contentType (result options) with
            | Some declared =>
                if decide (declared = "")
                then match type options with
                     | json => "application/json"
                     | html => "text/html; charset=utf-8"
                     end
                else declared
            | None => match type options with
                      | json => "application/json"
                      | html => "text/html; charset=utf-8"
                      end
            end) as Hderived.
  { unfold derivedContentType.
    destruct (contentType (result options)) as [[|c d]|];
      destruct (type options); done. }
  rewrite <- Hderived. clear Hderived.
  destruct (sendHeaders_accepted checkHeaderValue res options edge powered
              Hedge Hpowered) as [Hsame Hheaders].
  destruct (sendRenderResult_after_headers generateETag checkHeaderValue
              res options) as (tail & Hcalls & Hkinds & Hframe).
  cbv zeta in *.
  pose proof (λ name value, tail_sets_no_header _ tail name value Hkinds)
    as Hnone.
  set (asked := poweredByHeader options && sameKind (type options) html) in *.
  assert (asked = true
          ↔ poweredByHeader options = true ∧ type options = html) as Hasked.
  { unfold asked. by rewrite andb_true_iff, sameKind_true. }
  set (res2 := {| headers := _; textBody := _; sent := _; calls := _ |}) in *.
  set (res' := sr_response _) in *.
  destruct (truthyStr (getHeader res "Content-Type")) eqn:Htruthy.
  - rewrite Hheaders in Hcalls, Hframe. cbn [fst] in Hcalls, Hframe.
    exists (SetHeader "X-Edge-Runtime" "1"
            :: (if asked then [SetHeader "X-Powered-By" "Next.js"] else [])
            ++ tail).
    split; [|split; [|split; [|split]]].
    + rewrite Hcalls. unfold res2. cbn [calls].
      rewrite <- ?app_assoc. simpl. reflexivity.
    + rewrite <- Hasked. split.
      * intros [v Hv]. revert Hv.
        rewrite elem_of_cons, elem_of_app.
        intros [[=] | [Hv | Hv]]; [|by apply Hnone in Hv].
        destruct asked; [done | by apply elem_of_nil in Hv].
      * intros ->. exists "Next.js". rewrite elem_of_cons, elem_of_app.
        right. left. by apply list_elem_of_singleton.
    + intros v. rewrite elem_of_cons, elem_of_app.
      intros [[=] | [Hv | Hv]]; [|by apply Hnone in Hv].
      destruct asked; [|by apply elem_of_nil in Hv].
      by apply list_elem_of_singleton in Hv as [= <-].
    + intros present Hpresent Hne. split.
      * rewrite Hframe by done. by rewrite Hsame.
      * intros v. rewrite elem_of_cons, elem_of_app.
        intros [[=] | [Hv | Hv]]; [|by apply Hnone in Hv].
        destruct asked; [|by apply elem_of_nil in Hv].
        by apply list_elem_of_singleton in Hv.
    + intros [Habsent | Hempty].
      * by rewrite Habsent in Htruthy.
      * by rewrite Hempty in Htruthy.
  - rewrite Hheaders in Hcalls, Hframe.
    destruct (setHeader_effect checkHeaderValue "Content-Type"
                (derivedContentType options) "content-type" res2 eq_refl)
      as (Hc3 & _ & _ & _ & Hv3 & _).
    cbv zeta in Hc3, Hv3. rewrite Hc3 in Hcalls.
    exists (SetHeader "X-Edge-Runtime" "1"
            :: (if asked then [SetHeader "X-Powered-By" "Next.js"] else [])
            ++ [SetHeader "Content-Type" (derivedContentType options)]
            ++ tail).
    split; [|split; [|split; [|split]]].
    + rewrite Hcalls. unfold res2. cbn [calls].
      rewrite <- ?app_assoc. simpl. rewrite <- ?app_assoc. reflexivity.
    + rewrite <- Hasked. split.
      * intros [v Hv]. revert Hv.
        rewrite elem_of_cons, !elem_of_app.
        intros [[=] | [Hv | [Hv | Hv]]]; [| |by apply Hnone in Hv].
        -- destruct asked; [done | by apply elem_of_nil in Hv].
        -- by apply list_elem_of_singleton in Hv.
      * intros ->. exists "Next.js". rewrite elem_of_cons, elem_of_app.
        right. left. by apply list_elem_of_singleton.
    + intros v. rewrite elem_of_cons, !elem_of_app.
      intros [[=] | [Hv | [Hv | Hv]]]; [| |by apply Hnone in Hv].
      * destruct asked; [|by apply elem_of_nil in Hv].
        by apply list_elem_of_singleton in Hv as [= <-].
      * by apply list_elem_of_singleton in Hv.
    + intros present Hpresent Hne.
      assert (truthyStr (getHeader res "Content-Type") = true) as Hyes.
      { apply truthyStr_true. eauto. }
      congruence.
    + intros _. split.
      * intros v. rewrite elem_of_cons, !elem_of_app. split.
        -- intros [[=] | [Hv | [Hv | Hv]]]; [| |by apply Hnone in Hv].
           ++ destruct asked; [|by apply elem_of_nil in Hv].
              by apply list_elem_of_singleton in Hv.
           ++ by apply list_elem_of_singleton in Hv as [= <-].
        -- intros ->. right. right. left. by apply list_elem_of_singleton.
      * intros stored Hstored. rewrite Hframe by done.
        rewrite Hv3, Hstored. done.
Qed.

(** A response that accepts every value that has no control character,
    and gets the plain headers of an HTML page. *)
Lemma sendRenderResult_header_rules_witness :
  let res := {| headers := ∅; textBody := None; sent := false;
                calls := [] |} in
  let options := {| result := {| contentType := None; isDynamic := false;
                                 toUnchunkedString := [104%N; 105%N] |};
                    type := html; generateEtags := false;
                    poweredByHeader := true |} in
  getHeader
    (sr_response (sendRenderResult (λ _, "etag") Sample.checkHeaderValue
                    res options)) "content-type"
  = Some "text/html; charset=utf-8".
Proof.
  intros res options.
  destruct (sendRenderResult_header_rules (λ _, "etag")
              Sample.checkHeaderValue res options
              (ex_intro _ "1" eq_refl) (ex_intro _ "Next.js" eq_refl))
    as (new & _ & _ & _ & _ & Habsent).
  destruct (Habsent (or_introl eq_refl)) as [_ Hstored].
  apply (Hstored "text/html; charset=utf-8" eq_refl).
Defined.

(** C6, as stated, fails on the empty string, which is there but falsy: a
    [Content-Type] header that is present with the value [''] is
    overwritten, and a result that declares the content type [''] gets the
    default of its kind instead. *)
Lemma empty_content_type_is_overwritten :
  let res := {| headers := <["content-type" := ""]> ∅; textBody := None;
                sent := false; calls := [] |} in
  let plain := {| result := {| contentType := Some "text/plain";
                               isDynamic := false;
                               toUnchunkedString := [] |};
                  type := html; generateEtags := false;
                  poweredByHeader := false |} in
  let undeclared := {| result := {| contentType := Some "";
                                    isDynamic := false;
                                    toUnchunkedString := [] |};
                       type := json; generateEtags := false;
                       poweredByHeader := false |} in
  getHeader res "Content-Type" = Some "" ∧
  getHeader
    (sr_response (sendRenderResult (λ _, "etag") Sample.checkHeaderValue
                    res plain)) "Content-Type"
  = Some "text/plain" ∧
  SetHeader "Content-Type" "text/plain"
    ∈ calls (sr_response (sendRenderResult (λ _, "etag")
                            Sample.checkHeaderValue res plain)) ∧
  getHeader
    (sr_response
       (sendRenderResult (λ _, "etag") Sample.checkHeaderValue
          {| headers := ∅; textBody := None; sent := false; calls := [] |}
          undeclared)) "Content-Type"
  = Some "application/json".
Proof.
  cbv zeta. split; [reflexivity|]. split; [reflexivity|].
  split; [|reflexivity].
  vm_compute. apply list_elem_of_In. simpl. tauto.
Qed.

(** C5: on the buffered path, once the header phase has returned,
    [setHeader] is called for [Content-Length], once, with the decimal of
    the payload's length in bytes; a payload with a character outside ASCII
    is longer in bytes than in characters, and the value is then not the
    character count.  When the response accepts that value, the header
    holds it, [ETag] is set if and only if [generateEtags] is true, and then
    with the tag of the payload; and when the tag is accepted too, or none
    is asked for, the payload becomes the body and the call returns. *)
Theorem sendRenderResult_buffered
    (generateETag : text → string)
    (checkHeaderValue : string → completion string)
    (res : Response) (options : SendOptions) :
  isDynamic (result options) = false →
  (sendHeaders checkHeaderValue options res).2 = Return () →
  let payload := toUnchunkedString (result options) in
  let sending := sendRenderResult generateETag checkHeaderValue res options in
  let res' := sr_response sending in
  ∃ new : list ResCall,
    calls res' = calls res ++ new ∧
    (∀ v, SetHeader "Content-Length" v ∈ new
          ↔ v = pretty (byteLength payload)) ∧
    (∀ c, c ∈ payload → (128 ≤ c)%N →
          (charCount payload < byteLength payload)%N ∧
          pretty (byteLength payload) ≠ pretty (charCount payload)) ∧
    (∀ v, SetHeader "ETag" v ∈ new →
          generateEtags options = true ∧ v = generateETag payload) ∧
    (∀ stored,
       checkHeaderValue (pretty (byteLength payload)) = Return stored →
       getHeader res' "Content-Length" = Some stored ∧
       ((∃ v, SetHeader "ETag" v ∈ new) ↔ generateEtags options = true) ∧
       (generateEtags options = false →
        getHeader res' "ETag" = getHeader res "ETag" ∧
        textBody res' = Some payload ∧ sr_outcome sending = Return ()) ∧
       (∀ tag, generateEtags options = true →
               checkHeaderValue (generateETag payload) = Return tag →
               getHeader res' "ETag" = Some tag ∧
               textBody res' = Some payload ∧
               sr_outcome sending = Return ())) ∧
    sr_stream sending = None.
Proof.
  intros Hbuffered Hreturned. cbv zeta.
  rewrite sendRenderResult_phases. cbv zeta. rewrite Hreturned, Hbuffered.
  destruct (sendHeaders_effect checkHeaderValue res options)
    as (hs1 & Hcalls1 & Hhs1 & _ & _ & Hframe1).
  cbv zeta in *.
  set (res1 := (sendHeaders checkHeaderValue options res).1) in *.
  set (payload := toUnchunkedString (result options)).
  unfold sendBuffered, andThen. fold payload.
  destruct (setHeader_effect checkHeaderValue "Content-Length"
              (pretty (byteLength payload)) "content-length" res1 eq_refl)
    as (Hc2 & _ & _ & Ho2 & Hv2 & Hr2).
  cbv zeta in *.
  destruct (setHeader checkHeaderValue "Content-Length"
              (pretty (byteLength payload)) res1) as [res2 r2].
  cbn [fst snd] in *.
  assert (∀ n v, SetHeader n v ∈ map (λ h, SetHeader h.1 h.2) hs1 →
                 n ≠ "Content-Length" ∧ n ≠ "ETag") as Hheaders.
  { intros n v ([n' v'] & [= -> ->] & Hh)%list_elem_of_fmap.
    by destruct (Hhs1 _ Hh) as [[= -> ->] | [= -> ->]]. }
  assert (∀ c, c ∈ payload → (128 ≤ c)%N →
               (charCount payload < byteLength payload)%N ∧
               pretty (byteLength payload) ≠ pretty (charCount payload))
    as Hbytes.
  { intros c Hc Hwide.
    pose proof (charCount_lt_byteLength _ _ Hc Hwide) as Hlt.
    split; [done|]. intros Heq%(inj pretty). lia. }
  destruct r2 as [[]|e2].
  2:{ exists (SetHeader "X-Edge-Runtime" "1"
              :: map (λ h, SetHeader h.1 h.2) hs1
              ++ [SetHeader "Content-Length" (pretty (byteLength payload))]).
      cbn [sr_response sr_stream sr_outcome fst snd].
      split; [|split; [|split; [done|split; [|split; [|done]]]]].
      - rewrite Hc2, Hcalls1, <- ?app_assoc. simpl. by rewrite <- ?app_assoc.
      - intros v. rewrite elem_of_cons, elem_of_app, list_elem_of_singleton.
        split.
        + intros [[=] | [Hv | [= <-]]]; [|done].
          by destruct (Hheaders _ _ Hv).
        + intros ->. right. by right.
      - intros v. rewrite elem_of_cons, elem_of_app, list_elem_of_singleton.
        intros [[=] | [Hv | [=]]]. by destruct (Hheaders _ _ Hv).
      - intros stored Hstored. by rewrite Hstored in Hr2. }
  destruct (generateEtags options) eqn:Hetags.
  - destruct (setHeader_effect checkHeaderValue "ETag"
                (generateETag payload) "etag" res2 eq_refl)
      as (Hc3 & Hb3 & _ & Ho3 & Hv3 & Hr3).
    cbv zeta in *.
    destruct (setHeader checkHeaderValue "ETag" (generateETag payload) res2)
      as [res3 r3]. cbn [fst snd] in *.
    assert (∃ tail,
              calls (sr_response
                       match r3 with
                       | Return _ =>
                           match body payload res3 with
                           | (res4, Return _) =>
                               {| sr_response := send res4;
                                  sr_stream := None;
                                  sr_outcome := Return () |}
                           | (res4, Throw e) =>
                               {| sr_response := res4; sr_stream := None;
                                  sr_outcome := Throw e |}
                           end
                       | Throw e =>
                           {| sr_response := res3; sr_stream := None;
                              sr_outcome := Throw e |}
                       end)
              = calls res3 ++ tail ∧
              ∀ n v, SetHeader n v ∉ tail) as (tail & Htail & Hnone).
    { destruct r3 as [[]|e3]; simpl.
      - exists [Body payload; Send]. rewrite <- app_assoc. split; [done|].
        intros n v. rewrite !elem_of_cons, elem_of_nil.
        by intros [[=] | [[=] | []]].
      - exists []. rewrite app_nil_r. split; [done|].
        intros n v. apply not_elem_of_nil. }
    exists (SetHeader "X-Edge-Runtime" "1"
            :: map (λ h, SetHeader h.1 h.2) hs1
            ++ [SetHeader "Content-Length" (pretty (byteLength payload));
                SetHeader "ETag" (generateETag payload)] ++ tail).
    split; [|split; [|split; [done|split; [|split]]]].
    + destruct r3 as [[]|e3]; cbn [body fst snd] in *;
        rewrite Htail, Hc3, Hc2, Hcalls1, <- ?app_assoc; simpl;
        by rewrite <- ?app_assoc.
    + intros v. rewrite elem_of_cons, !elem_of_app, !elem_of_cons.
      split.
      * intros [[=] | [Hv | [[[= <-] | [[=] | Hv]] | Hv]]]; try done.
        -- by destruct (Hheaders _ _ Hv).
        -- by apply elem_of_nil in Hv.
        -- by apply Hnone in Hv.
      * intros ->. right. right. left. by left.
    + intros v. rewrite elem_of_cons, !elem_of_app, !elem_of_cons.
      intros [[=] | [Hv | [[[=] | [[= <-] | Hv]] | Hv]]]; try done.
      * by destruct (Hheaders _ _ Hv).
      * by apply elem_of_nil in Hv.
      * by apply Hnone in Hv.
    + intros stored Hstored.
      assert (getHeader res3 "Content-Length" = Some stored) as Hlength.
      { rewrite Ho3 by done. by rewrite Hv2, Hstored. }
      split; [|split; [|split]].
      * by destruct r3 as [[]|e3].
      * split; [done|]. intros _. exists (generateETag payload).
        rewrite elem_of_cons, !elem_of_app, !elem_of_cons.
        right. right. left. right. by left.
      * done.
      * intros tag _ Htag. rewrite Htag in Hv3, Hr3. subst r3. done.
    + by destruct r3 as [[]|e3].
  - unfold skip, body. cbn [fst snd sr_response sr_stream sr_outcome].
    exists (SetHeader "X-Edge-Runtime" "1"
            :: map (λ h, SetHeader h.1 h.2) hs1
            ++ [SetHeader "Content-Length" (pretty (byteLength payload));
                Body payload; Send]).
    split; [|split; [|split; [done|split; [|split; [|done]]]]].
    + simpl. rewrite Hc2, Hcalls1, <- ?app_assoc. simpl.
      by rewrite <- ?app_assoc.
    + intros v. rewrite elem_of_cons, !elem_of_app, !elem_of_cons.
      split.
      * intros [[=] | [Hv | [[= <-] | [[=] | [[=] | Hv]]]]]; try done.
        -- by destruct (Hheaders _ _ Hv).
        -- by apply elem_of_nil in Hv.
      * intros ->. right. right. by left.
    + intros v. rewrite elem_of_cons, !elem_of_app, !elem_of_cons.
      intros [[=] | [Hv | [[=] | [[=] | [[=] | Hv]]]]].
      * by destruct (Hheaders _ _ Hv).
      * by apply elem_of_nil in Hv.
    + intros stored Hstored. simpl.
      split; [|split; [|split]].
      * unfold getHeader in *. simpl. by rewrite Hv2, Hstored.
      * split; [|done]. intros [v Hv]. revert Hv.
        rewrite elem_of_cons, !elem_of_app, !elem_of_cons.
        intros [[=] | [Hv | [[=] | [[=] | [[=] | Hv]]]]].
        -- by destruct (Hheaders _ _ Hv).
        -- by apply elem_of_nil in Hv.
      * intros _. split; [|done].
        unfold getHeader in *. simpl. rewrite Ho2 by done.
        by apply Hframe1.
      * done.
Qed.

(** The payload [é]: one character, two bytes, [Content-Length: 2]. *)
Lemma sendRenderResult_buffered_witness :
  let res := {| headers := ∅; textBody := None; sent := false;
                calls := [] |} in
  let options := {| result := {| contentType := None; isDynamic := false;
                                 toUnchunkedString := [233%N] |};
                    type := html; generateEtags := true;
                    poweredByHeader := false |} in
  charCount [233%N] = 1%N ∧
  getHeader
    (sr_response (sendRenderResult (λ _, "etag") Sample.checkHeaderValue
                    res options)) "Content-Length" = Some "2" ∧
  getHeader
    (sr_response (sendRenderResult (λ _, "etag") Sample.checkHeaderValue
                    res options)) "ETag" = Some "etag".
Proof.
  intros res options.
  assert ((sendHeaders Sample.checkHeaderValue options res).2 = Return ())
    as Hreturned by (vm_compute; reflexivity).
  destruct (sendRenderResult_buffered (λ _, "etag") Sample.checkHeaderValue
              res options eq_refl Hreturned)
    as (new & _ & _ & _ & _ & Haccepted & _).
  destruct (Haccepted "2" eq_refl) as (Hlength & _ & _ & Htag).
  split; [reflexivity|]. split; [exact Hlength|].
  apply (Htag "etag" eq_refl eq_refl).
Defined.

(** * Further properties *)

(** ** handleCatchallRenderRequest *)

(** X1: a request whose pathname is undefined or empty is refused with
    the error "pathname is undefined", whatever the server, its provider
    and its [render] are: nothing is rendered for it. *)
Theorem handleCatchallRenderRequest_refuses_no_pathname
    {Req Res RouteRegex : Type} (I : Imports Req RouteRegex)
    (this : Server Req Res) (req : Req) (res : Res) (parsedUrl : ParsedUrl) :
  pathname parsedUrl = None ∨ pathname parsedUrl = Some "" →
  renderCall I this req res parsedUrl
  = Throw (Error "pathname is undefined") ∧
  handleCatchallRenderRequest I this req res parsedUrl
  = Throw (Error "pathname is undefined").
Proof.
  unfold handleCatchallRenderRequest, renderCall.
  intros [-> | ->]; done.
Qed.

(** Even a query that asks for bubbling and a [render] that would return
    do not help an empty pathname. *)
Lemma handleCatchallRenderRequest_refuses_no_pathname_witness :
  handleCatchallRenderRequest Sample.imports
    (Sample.server "/about" None (Return ())) "/" ()
    {| pathname := Some "";
       query := <["_nextBubbleNoFallback" := VStr "1"]> ∅ |}
  = Throw (Error "pathname is undefined").
Proof.
  apply (handleCatchallRenderRequest_refuses_no_pathname Sample.imports
           (Sample.server "/about" None (Return ())) "/" ()
           {| pathname := Some "";
              query := <["_nextBubbleNoFallback" := VStr "1"]> ∅ |}).
  right. reflexivity.
Defined.

(** X2: for a request with a pathname the handler ends in one of three
    ways, each decided by [render] and the flag: [{finished: true}]
    exactly when [render] returns, [{finished: false}] exactly when
    [render] throws [NoFallbackError] under a truthy flag, and an error
    exactly when [render] threw that very error and it was not bubbled. *)
Theorem handleCatchallRenderRequest_outcome
    {Req Res RouteRegex : Type} (I : Imports Req RouteRegex)
    (this : Server Req Res) (req : Req) (res : Res) (parsedUrl : ParsedUrl)
    (p : string) :
  pathname parsedUrl = Some p → p ≠ "" →
  ∃ call : RenderCall Req Res,
    let flag := truthy (get (query parsedUrl) "_nextBubbleNoFallback") in
    let outcome := handleCatchallRenderRequest I this req res parsedUrl in
    renderCall I this req res parsedUrl = Return (flag, call) ∧
    (outcome = Return {| finished := true |}
     ↔ render this call = Return ()) ∧
    (outcome = Return {| finished := false |}
     ↔ render this call = Throw NoFallbackError ∧ flag = true) ∧
    (∀ e, outcome = Throw e
          ↔ render this call = Throw e
            ∧ (e ≠ NoFallbackError ∨ flag = false)).
Proof.
  intros Hp Hne.
  pose proof (renderCall_reached I this req res parsedUrl p Hp Hne) as Hcall.
  simpl in Hcall. eexists. split; [exact Hcall|].
  unfold handleCatchallRenderRequest. rewrite Hcall.
  destruct (render this _) as [[]|[|message]];
    destruct (truthy (get (query parsedUrl) "_nextBubbleNoFallback"));
    simpl; (split; [|split]); try intros e; intuition congruence.
Qed.

(** A [render] that returns under a set flag: [{finished: true}]. *)
Lemma handleCatchallRenderRequest_outcome_witness :
  handleCatchallRenderRequest Sample.imports
    (Sample.server "/about" None (Return ())) "/about" ()
    {| pathname := Some "/about";
       query := <["_nextBubbleNoFallback" := VStr "1"]> ∅ |}
  = Return {| finished := true |}.
Proof.
  destruct (handleCatchallRenderRequest_outcome Sample.imports
              (Sample.server "/about" None (Return ())) "/about" ()
              {| pathname := Some "/about";
                 query := <["_nextBubbleNoFallback" := VStr "1"]> ∅ |}
              "/about" eq_refl ltac:(discriminate))
    as (call & _ & Hreturns & _).
  apply Hreturns. reflexivity.
Defined.

(** X3: what the handler leaves alone.  The [parsedUrl] handed to [render]
    still has the incoming pathname, not the normalized one; the response
    is handed on as it is; and the query handed on agrees with the incoming
    query on every key other than [__nextLocale] and
    [_nextBubbleNoFallback]. *)
Theorem handleCatchallRenderRequest_frame
    {Req Res RouteRegex : Type} (I : Imports Req RouteRegex)
    (this : Server Req Res) (req : Req) (res : Res) (parsedUrl : ParsedUrl)
    (flag : bool) (call : RenderCall Req Res) :
  renderCall I this req res parsedUrl = Return (flag, call) →
  pathname (rc_parsedUrl call) = pathname parsedUrl ∧
  rc_res call = res ∧
  rc_internal call = true ∧
  (∀ k, k ≠ "__nextLocale" → k ≠ "_nextBubbleNoFallback" →
        rc_query call !! k = query parsedUrl !! k).
Proof.
  unfold renderCall.
  destruct (pathname parsedUrl) as [p|]; [|done].
  destruct (isEmpty p); [done|].
  destruct (interpolatePage I this req p (query parsedUrl)) as [p1 req1].
  intros [= _ <-]. simpl. repeat split.
  intros k Hlocale Hflag. unfold stripBubbleFlag.
  destruct (isAPIRoute I (removeTrailingSlash I p1)).
  - rewrite lookup_delete_ne by done. by apply annotateLocale_other.
  - by apply annotateLocale_other.
Qed.

(** [/blog/hello/] is rendered as the page [/blog/[slug]] interpolated,
    and [parsedUrl.pathname] is still [/blog/hello/]. *)
Lemma handleCatchallRenderRequest_frame_witness :
  ∃ call,
    renderCall Sample.imports (Sample.server "/blog/[slug]" None (Return ()))
      "/blog/hello/" ()
      {| pathname := Some "/blog/hello/";
         query := <["slug" := VStr "hello"]> ∅ |}
    = Return (false, call) ∧
    rc_pathname call = "/blog/hello" ∧
    pathname (rc_parsedUrl call) = Some "/blog/hello/" ∧
    rc_query call !! "slug" = Some (VStr "hello").
Proof.
  eexists. split; [reflexivity|]. split; [reflexivity|].
  match goal with
  | |- pathname (rc_parsedUrl ?call) = _ ∧ _ =>
      assert (renderCall Sample.imports
                (Sample.server "/blog/[slug]" None (Return ()))
                "/blog/hello/" ()
                {| pathname := Some "/blog/hello/";
                   query := <["slug" := VStr "hello"]> ∅ |}
              = Return (false, call)) as Hcall
        by (vm_compute; reflexivity);
      destruct (handleCatchallRenderRequest_frame Sample.imports
                  (Sample.server "/blog/[slug]" None (Return ()))
                  "/blog/hello/" ()
                  {| pathname := Some "/blog/hello/";
                     query := <["slug" := VStr "hello"]> ∅ |}
                  false call Hcall)
        as (Hpath & _ & _ & Hquery)
  end.
  split; [exact Hpath|].
  rewrite Hquery by discriminate. reflexivity.
Defined.

(** X4: the incoming pathname matters only through whether it is the page
    itself.  Two requests whose pathnames both differ from the page, with
    the same query and request object, make [render] see the same
    pathname, the same query and the same request. *)
Theorem handleCatchallRenderRequest_renders_matched_page
    {Req Res RouteRegex : Type} (I : Imports Req RouteRegex)
    (this : Server Req Res) (req : Req) (res : Res) (q : query_t)
    (p p' : string) :
  p ≠ "" → p' ≠ "" →
  p ≠ webServerConfig_pathname this → p' ≠ webServerConfig_pathname this →
  ∃ flag call call',
    renderCall I this req res {| pathname := Some p; query := q |}
    = Return (flag, call) ∧
    renderCall I this req res {| pathname := Some p'; query := q |}
    = Return (flag, call') ∧
    rc_pathname call = rc_pathname call' ∧
    rc_query call = rc_query call' ∧
    rc_req call = rc_req call'.
Proof.
  intros Hne Hne' Hp Hp'.
  pose proof (renderCall_reached I this req res
                {| pathname := Some p; query := q |} p eq_refl Hne) as Hcall.
  pose proof (renderCall_reached I this req res
                {| pathname := Some p'; query := q |} p' eq_refl Hne')
    as Hcall'.
  simpl in Hcall, Hcall'.
  do 3 eexists. split; [exact Hcall|]. split; [exact Hcall'|]. simpl.
  unfold interpolatePage. rewrite !decide_True by done. done.
Qed.

(** [/posts/1] and [/anything] both render the page [/about]. *)
Lemma handleCatchallRenderRequest_renders_matched_page_witness :
  ∃ flag call call',
    renderCall Sample.imports (Sample.server "/about" None (Return ()))
      "/posts/1" () {| pathname := Some "/posts/1"; query := ∅ |}
    = Return (flag, call) ∧
    renderCall Sample.imports (Sample.server "/about" None (Return ()))
      "/posts/1" () {| pathname := Some "/anything"; query := ∅ |}
    = Return (flag, call') ∧
    rc_pathname call = rc_pathname call'.
Proof.
  destruct (handleCatchallRenderRequest_renders_matched_page Sample.imports
              (Sample.server "/about" None (Return ())) "/posts/1" () ∅
              "/posts/1" "/anything"
              ltac:(discriminate) ltac:(discriminate)
              ltac:(discriminate) ltac:(discriminate))
    as (flag & call & call' & Hcall & Hcall' & Hsame & _).
  exists flag, call, call'. done.
Defined.

(** X5: the request object is rewritten by [normalizeVercelUrl] exactly
    when the incoming pathname differs from a dynamic page, with the keys of
    the page's route regex; in every other case [render] gets the request
    as it came in. *)
Theorem handleCatchallRenderRequest_request
    {Req Res RouteRegex : Type} (I : Imports Req RouteRegex)
    (this : Server Req Res) (req : Req) (res : Res) (parsedUrl : ParsedUrl)
    (p : string) :
  pathname parsedUrl = Some p → p ≠ "" →
  ∃ flag call,
    let page := webServerConfig_pathname this in
    let routeRegex := getNamedRouteRegex I page false in
    renderCall I this req res parsedUrl = Return (flag, call) ∧
    (p = page ∨ isDynamicRoute I page = false → rc_req call = req) ∧
    (p ≠ page → isDynamicRoute I page = true →
     rc_req call
     = normalizeVercelUrl I req true (routeKeys I routeRegex) true routeRegex).
Proof.
  intros Hp Hne.
  pose proof (renderCall_reached I this req res parsedUrl p Hp Hne) as Hcall.
  simpl in Hcall. do 2 eexists. split; [exact Hcall|]. simpl.
  unfold interpolatePage. split.
  - intros [-> | Hstatic].
    + by rewrite decide_False by (intros H; by apply H).
    + rewrite Hstatic. by case_decide.
  - intros Hpage Hdynamic. rewrite decide_True by done.
    by rewrite Hdynamic.
Qed.

(** A request for the page itself keeps its URL. *)
Lemma handleCatchallRenderRequest_request_witness :
  ∃ flag call,
    renderCall Sample.imports (Sample.server "/blog/[slug]" None (Return ()))
      "https://example.test/blog/[slug]" ()
      {| pathname := Some "/blog/[slug]"; query := ∅ |}
    = Return (flag, call) ∧
    rc_req call = "https://example.test/blog/[slug]".
Proof.
  destruct (handleCatchallRenderRequest_request Sample.imports
              (Sample.server "/blog/[slug]" None (Return ()))
              "https://example.test/blog/[slug]" ()
              {| pathname := Some "/blog/[slug]"; query := ∅ |}
              "/blog/[slug]" eq_refl ltac:(discriminate))
    as (flag & call & Hcall & Hsame & _).
  exists flag, call. split; [exact Hcall|].
  apply Hsame. left. reflexivity.
Defined.

(** A call of [render] was reached only with a pathname. *)
Lemma renderCall_Return_pathname
    {Req Res RouteRegex : Type} (I : Imports Req RouteRegex)
    (this : Server Req Res) (req : Req) (res : Res) (parsedUrl : ParsedUrl)
    (flag : bool) (call : RenderCall Req Res) :
  renderCall I this req res parsedUrl = Return (flag, call) →
  ∃ p, pathname parsedUrl = Some p ∧ p ≠ "".
Proof.
  unfold renderCall.
  destruct (pathname parsedUrl) as [p|]; [|done].
  destruct (isEmpty p) eqn:Hp; [done|].
  intros _. exists p. split; [done|]. by apply isEmpty_false.
Qed.

(** X6: on an API route the flag is read before it is deleted.  [render]
    sees a query without [_nextBubbleNoFallback], and a [NoFallbackError]
    it throws is bubbled all the same when the incoming flag was truthy. *)
Theorem handleCatchallRenderRequest_api_route_bubbles
    {Req Res RouteRegex : Type} (I : Imports Req RouteRegex)
    (this : Server Req Res) (req : Req) (res : Res) (parsedUrl : ParsedUrl)
    (flag : bool) (call : RenderCall Req Res) :
  renderCall I this req res parsedUrl = Return (flag, call) →
  isAPIRoute I (rc_pathname call) = true →
  truthy (get (query parsedUrl) "_nextBubbleNoFallback") = true →
  render this call = Throw NoFallbackError →
  rc_query call !! "_nextBubbleNoFallback" = None ∧
  handleCatchallRenderRequest I this req res parsedUrl
  = Return {| finished := false |}.
Proof.
  intros Hcall Hapi Hflag Hthrows.
  destruct (renderCall_Return_pathname I this req res parsedUrl flag call
              Hcall) as (p & Hp & Hne).
  pose proof (renderCall_reached I this req res parsedUrl p Hp Hne) as Hreached.
  simpl in Hreached. rewrite Hreached in Hcall.
  injection Hcall as <- <-. simpl in *. split.
  - unfold stripBubbleFlag. rewrite Hapi. apply lookup_delete_eq.
  - unfold handleCatchallRenderRequest. rewrite Hreached, Hthrows, Hflag.
    reflexivity.
Qed.

(** [/api/hello] with the flag set and no fallback: not finished, and the
    flag is gone from the query. *)
Lemma handleCatchallRenderRequest_api_route_bubbles_witness :
  handleCatchallRenderRequest Sample.imports
    (Sample.server "/api/hello" None (Throw NoFallbackError))
    "/api/hello" ()
    {| pathname := Some "/api/hello";
       query := <["_nextBubbleNoFallback" := VStr "1"]> ∅ |}
  = Return {| finished := false |}.
Proof.
  assert (∃ call,
            renderCall Sample.imports
              (Sample.server "/api/hello" None (Throw NoFallbackError))
              "/api/hello" ()
              {| pathname := Some "/api/hello";
                 query := <["_nextBubbleNoFallback" := VStr "1"]> ∅ |}
            = Return (true, call)) as [call Hcall]
    by (eexists; vm_compute; reflexivity).
  refine (proj2 (handleCatchallRenderRequest_api_route_bubbles Sample.imports
                   (Sample.server "/api/hello" None (Throw NoFallbackError))
                   "/api/hello" () _ true call Hcall _ eq_refl eq_refl)).
  injection Hcall as <-. reflexivity.
Defined.

(** X7: where [__nextLocale] in the query handed to [render] comes from.
    It is the locale the provider detects for the pathname handed to
    [render], when a provider is configured and detects a non-empty one; in
    every other case it is whatever the incoming query had under that key,
    so a value sent by the client gets through. *)
Theorem handleCatchallRenderRequest_nextLocale
    {Req Res RouteRegex : Type} (I : Imports Req RouteRegex)
    (this : Server Req Res) (req : Req) (res : Res) (parsedUrl : ParsedUrl)
    (flag : bool) (call : RenderCall Req Res) :
  renderCall I this req res parsedUrl = Return (flag, call) →
  rc_query call !! "__nextLocale"
  = match i18nProvider this with
    | Some analyze =>
        match detectedLocale (analyze (rc_pathname call)) with
        | Some locale =>
            if isEmpty locale then query parsedUrl !! "__nextLocale"
            else Some (VStr locale)
        | None => query parsedUrl !! "__nextLocale"
        end
    | None => query parsedUrl !! "__nextLocale"
    end.
Proof.
  intros Hcall.
  destruct (renderCall_Return_pathname I this req res parsedUrl flag call
              Hcall) as (p & Hp & Hne).
  pose proof (renderCall_reached I this req res parsedUrl p Hp Hne) as Hreached.
  simpl in Hreached. rewrite Hreached in Hcall.
  injection Hcall as <- <-. simpl.
  set (p2 := removeTrailingSlash I
               (interpolatePage I this req p (query parsedUrl)).1).
  assert (∀ q : query_t,
            stripBubbleFlag I p2 q !! "__nextLocale" = q !! "__nextLocale")
    as ->.
  { intros q. unfold stripBubbleFlag. destruct (isAPIRoute I p2); [|done].
    by rewrite lookup_delete_ne. }
  unfold annotateLocale.
  destruct (i18nProvider this) as [analyze|]; [|done].
  destruct (detectedLocale (analyze p2)) as [locale|]; [|done].
  simpl. destruct (isEmpty locale); simpl; [done|].
  apply lookup_insert_eq.
Qed.

(** Without a provider, [__nextLocale=de] in the URL reaches [render]. *)
Lemma handleCatchallRenderRequest_nextLocale_witness :
  ∃ call,
    renderCall Sample.imports (Sample.server "/about" None (Return ()))
      "/about" ()
      {| pathname := Some "/about";
         query := <["__nextLocale" := VStr "de"]> ∅ |}
    = Return (false, call) ∧
    rc_query call !! "__nextLocale" = Some (VStr "de").
Proof.
  eexists. split; [reflexivity|].
  match goal with
  | |- rc_query ?call !! _ = _ =>
      assert (renderCall Sample.imports
                (Sample.server "/about" None (Return ())) "/about" ()
                {| pathname := Some "/about";
                   query := <["__nextLocale" := VStr "de"]> ∅ |}
              = Return (false, call)) as Hcall
        by (vm_compute; reflexivity);
      rewrite (handleCatchallRenderRequest_nextLocale Sample.imports
                 (Sample.server "/about" None (Return ())) "/about" ()
                 {| pathname := Some "/about";
                    query := <["__nextLocale" := VStr "de"]> ∅ |}
                 false call Hcall)
  end.
  reflexivity.
Defined.

(** ** sendRenderResult *)




(** X10: the headers [sendRenderResult] may touch are [X-Edge-Runtime],
    [X-Powered-By], [Content-Type], [Content-Length] and [ETag]; a header
    whose name is none of these, whatever its casing, is left as it was,
    also when the call throws. *)
Theorem sendRenderResult_other_headers
    (generateETag : text → string)
    (checkHeaderValue : string → completion string)
    (res : Response) (options : SendOptions) (name : string) :
  lower name ∉ ["x-edge-runtime"; "x-powered-by"; "content-type";
                "content-length"; "etag"] →
  getHeader
    (sr_response (sendRenderResult generateETag checkHeaderValue res options))
    name
  = getHeader res name.
Proof.
  intros Hname.
  repeat (apply not_elem_of_cons in Hname as [? Hname]).
  destruct (sendRenderResult_after_headers generateETag checkHeaderValue
              res options) as (tail & _ & _ & Hframe2).
  destruct (sendHeaders_effect checkHeaderValue res options)
    as (hs1 & _ & _ & _ & _ & Hframe1).
  cbv zeta in *. rewrite Hframe2 by done. by apply Hframe1.
Qed.

(** A [Set-Cookie] header survives; so does one stored before under
    another casing of its name. *)
Lemma sendRenderResult_other_headers_witness :
  getHeader
    (sr_response
       (sendRenderResult (λ _, "etag") Sample.checkHeaderValue
          {| headers := <["set-cookie" := "a=1"]> ∅; textBody := None;
             sent := false; calls := [] |}
          {| result := {| contentType := None; isDynamic := false;
                          toUnchunkedString := [] |};
             type := json; generateEtags := true;
             poweredByHeader := true |}))
    "Set-Cookie"
  = Some "a=1".
Proof.
  rewrite (sendRenderResult_other_headers (λ _, "etag")
             Sample.checkHeaderValue _ _ "Set-Cookie").
  - reflexivity.
  - intros Hin. repeat (apply elem_of_cons in Hin as [Hin | Hin];
                        [discriminate|]).
    by apply elem_of_nil in Hin.
Defined.

(** ** The close listener of a streamed result *)

(** X11: with no listener registered when the reaction to the close runs,
    none is ever called: not one that was taken off before, even after the
    stream had closed, and not one that is put on after the reaction has
    run.  Nothing is reported as unhandled either. *)
Theorem close_without_listener_calls_nothing
    (before between after : list Stream.event) (e : Stream.event) :
  forallb (λ e, negb (Stream.closes e)) before = true →
  Stream.closes e = true →
  forallb (λ e, negb (Stream.isMicrotask e)) between = true →
  Stream.innerClose
    (Stream.run Stream.attached Stream.initial (before ++ e :: between))
  = None →
  let s := Stream.run Stream.attached Stream.initial
             (before ++ e :: between ++ Stream.Microtask :: after) in
  Stream.invoked s = [] ∧ Stream.unhandled s = [].
Proof.
  intros Hbefore He Hbetween Hnone.
  pose proof (run_reaction before between after e Hbefore He Hbetween)
    as Hrun.
  cbv zeta in Hrun. by rewrite Hnone in Hrun.
Qed.

(** The listener is taken off after the stream was cancelled and before
    the reaction runs; another one is put on afterwards. *)
Lemma close_without_listener_calls_nothing_witness :
  let cb := {| Stream.cb_id := 1; Stream.cb_throws := false |} in
  Stream.invoked
    (Stream.run Stream.attached Stream.initial
       ([Stream.On cb; Stream.Write [104%N]]
        ++ Stream.Cancel
           :: [Stream.Off cb]
           ++ Stream.Microtask :: [Stream.On cb; Stream.End;
                                  Stream.Microtask]))
  = [].
Proof.
  intros cb.
  apply (close_without_listener_calls_nothing
           [Stream.On cb; Stream.Write [104%N]] [Stream.Off cb]
           [Stream.On cb; Stream.End; Stream.Microtask] Stream.Cancel
           eq_refl eq_refl eq_refl eq_refl).
Defined.



(** ** renderHTML across requests *)

(** X13: the overlay never touches [dev], so the not-found marker in force
    is the same however many requests were rendered on the same
    [renderOpts] before: a pathname is rewritten to [/404] after them
    exactly when it would have been at the start. *)
Theorem renderHTML_marker_stable
    {Req Res : Type} (σ : store) (renderOpts : loc)
    (earlier : list (Req * Res * string * query_t))
    (req : Req) (res : Res) (p : string) (q : query_t) :
  notFoundMarker (renderAll σ renderOpts earlier) renderOpts
  = notFoundMarker σ renderOpts ∧
  rh_pathname
    (fst (renderToHTMLCall (renderAll σ renderOpts earlier)
            req res p q renderOpts))
  = rh_pathname (fst (renderToHTMLCall σ req res p q renderOpts)).
Proof.
  assert (notFoundMarker (renderAll σ renderOpts earlier) renderOpts
          = notFoundMarker σ renderOpts) as Hmarker.
  { destruct earlier as [|[[[req0 res0] p0] q0] rest]; [done|].
    simpl. rewrite renderAll_overlay.
    unfold notFoundMarker, get. by rewrite deref_overlay. }
  split; [done|]. simpl. by rewrite Hmarker.
Qed.

(** ** The constructor and the getters *)

Lemma deref_constructor {Route DynamicRoute CacheHandler : Type}
    (config : WebServerConfig Route DynamicRoute CacheHandler)
    (σ : store) (renderOpts : loc) (k : string) :
  deref (constructor config σ renderOpts) renderOpts !! k
  = match webServerConfig_extendRenderOpts config !! k with
    | Some v => Some v
    | None => deref σ renderOpts !! k
    end.
Proof.
  unfold constructor. rewrite deref_assignAt. unfold assign.
  rewrite lookup_union.
  destruct (webServerConfig_extendRenderOpts config !! k) as [v|].
  - by destruct (deref σ renderOpts !! k).
  - by rewrite (left_id_L None _).
Qed.

(** X14: after the constructor, [renderOpts] carries every property of
    [extendRenderOpts] with its value, keeps the base options the
    extension does not name, and no other object has changed.  So what
    [getBuildId] and [getNextFontManifest] read from the configuration is
    what [renderOpts.buildId] and [renderOpts.nextFontManifest] hold, as
    soon as the extension defines them. *)
Theorem constructor_extends_renderOpts
    {Route DynamicRoute CacheHandler : Type}
    (config : WebServerConfig Route DynamicRoute CacheHandler)
    (σ : store) (renderOpts : loc) :
  let σ' := constructor config σ renderOpts in
  let extension := webServerConfig_extendRenderOpts config in
  (∀ k v, extension !! k = Some v → deref σ' renderOpts !! k = Some v) ∧
  (∀ k, extension !! k = None →
        deref σ' renderOpts !! k = deref σ renderOpts !! k) ∧
  (∀ l, l ≠ renderOpts → σ' !! l = σ !! l) ∧
  (is_Some (extension !! "buildId") →
   get (deref σ' renderOpts) "buildId" = getBuildId config) ∧
  (is_Some (extension !! "nextFontManifest") →
   get (deref σ' renderOpts) "nextFontManifest"
   = getNextFontManifest config).
Proof.
  simpl. split; [|split; [|split; [|split]]].
  - intros k v Hk. by rewrite deref_constructor, Hk.
  - intros k Hk. by rewrite deref_constructor, Hk.
  - intros l Hl. unfold constructor, assignAt. by rewrite lookup_insert_ne.
  - intros [v Hv]. unfold get, getBuildId, get.
    by rewrite deref_constructor, Hv.
  - intros [v Hv]. unfold get, getNextFontManifest, get.
    by rewrite deref_constructor, Hv.
Qed.

(** X15: the constructor and [renderHTML] together.  When [renderHTML] is
    handed the server's [renderOpts], the rendering function sees the two
    forced values even where the extension says otherwise, and every other
    property of the extension as the configuration gave it. *)
Theorem constructor_then_renderHTML
    {Route DynamicRoute CacheHandler Req Res : Type}
    (config : WebServerConfig Route DynamicRoute CacheHandler)
    (σ : store) (renderOpts : loc)
    (req : Req) (res : Res) (p : string) (q : query_t) :
  let σ1 := constructor config σ renderOpts in
  let σ2 := snd (renderToHTMLCall σ1 req res p q renderOpts) in
  get (deref σ2 renderOpts) "runtime" = VStr "experimental-edge" ∧
  get (deref σ2 renderOpts) "disableOptimizedLoading" = VBool true ∧
  (∀ k v, k ≠ "runtime" → k ≠ "disableOptimizedLoading" →
          webServerConfig_extendRenderOpts config !! k = Some v →
          deref σ2 renderOpts !! k = Some v).
Proof.
  simpl. unfold get. rewrite !deref_overlay. simpl.
  split; [done|]. split; [done|].
  intros k v Hruntime Hloading Hk.
  rewrite deref_overlay, !decide_False by done.
  by rewrite deref_constructor, Hk.
Qed.

(** X16: the constructor and [getPrerenderManifest] together.  A [dev]
    property of the extension overrides the base option: when it is
    truthy the development manifest is served even though a manifest was
    supplied, and when it is falsy the supplied manifest is served even
    though the base options were in development mode. *)
Theorem constructor_then_getPrerenderManifest
    {Route DynamicRoute CacheHandler : Type}
    (config : WebServerConfig Route DynamicRoute CacheHandler)
    (σ : store) (renderOpts : loc) (dev : value)
    (supplied : PrerenderManifest Route DynamicRoute) :
  webServerConfig_extendRenderOpts config !! "dev" = Some dev →
  webServerConfig_prerenderManifest config = Some supplied →
  getPrerenderManifest (constructor config σ renderOpts) renderOpts
    (webServerConfig_prerenderManifest config)
  = if truthy dev then developmentManifest else supplied.
Proof.
  intros Hdev ->. unfold getPrerenderManifest, get.
  by rewrite deref_constructor, Hdev.
Qed.

(** The base options say [dev: true], the extension says [dev: false]:
    the supplied manifest is served. *)
Lemma constructor_then_getPrerenderManifest_witness :
  let supplied : PrerenderManifest unit unit :=
    {| version := 4; routes := <["/" := ()]> ∅; dynamicRoutes := ∅;
       notFoundRoutes := []; preview := ∅ |} in
  let config : WebServerConfig unit unit unit :=
    {| webServerConfig_pagesType := app;
       webServerConfig_extendRenderOpts :=
         <["dev" := VBool false]> (<["buildId" := VStr "b1"]> ∅);
       webServerConfig_incrementalCacheHandler := None;
       webServerConfig_prerenderManifest := Some supplied |} in
  getPrerenderManifest
    (constructor config (<[1%positive := <["dev" := VBool true]> ∅]> ∅)
       1%positive)
    1%positive (Some supplied)
  = supplied.
Proof.
  intros supplied config.
  apply (constructor_then_getPrerenderManifest config
           (<[1%positive := <["dev" := VBool true]> ∅]> ∅) 1%positive
           (VBool false) supplied eq_refl eq_refl).
Defined.

(** X17: the incremental cache of a request.  Its [dev] flag and the
    manifest it reads agree as long as [renderOpts] is not changed: with
    [dev] on it reads the development manifest, with [dev] off the supplied
    one when there is one.  Whatever the configuration, it fetches over
    https, caches fetches, and never flushes to disk; the cache handler is
    the configured one. *)
Theorem getIncrementalCache_spec
    {Route DynamicRoute CacheHandler Headers : Type}
    (config : WebServerConfig Route DynamicRoute CacheHandler)
    (σ : store) (this : BaseState) (requestHeaders : Headers) :
  let cache := getIncrementalCache config σ this requestHeaders in
  ic_getPrerenderManifest cache σ
  = (if ic_dev cache then developmentManifest
     else default developmentManifest
            (webServerConfig_prerenderManifest config)) ∧
  ic_dev cache = truthy (get (deref σ (this_renderOpts this)) "dev") ∧
  ic_requestProtocol cache = "https" ∧
  ic_fetchCache cache = true ∧
  ic_flushToDisk cache = false ∧
  ic_requestHeaders cache = requestHeaders ∧
  ic_CurCacheHandler cache = webServerConfig_incrementalCacheHandler config.
Proof.
  simpl. unfold getPrerenderManifest.
  destruct (webServerConfig_prerenderManifest config);
    destruct (truthy (get (deref σ (this_renderOpts this)) "dev")); done.
Qed.

(** ** findPageComponents *)

(** X18: [findPageComponents] gives null exactly when the components do
    not load.  Otherwise it gives the loaded components and a query in
    which a route parameter wins over a query entry of the same name, every
    other entry of either is kept, and nothing else is added; an undefined
    [query] or [params] counts as empty. *)
Theorem findPageComponents_spec
    {Definition_ Components : Type}
    (loadComponents : Definition_ → option Components)
    (query params : option (gmap string value)) (definition : Definition_) :
  (findPageComponents loadComponents query params definition = None
   ↔ loadComponents definition = None) ∧
  (∀ found,
     findPageComponents loadComponents query params definition = Some found →
     loadComponents definition = Some (found_components found) ∧
     (∀ k v, spreadOrEmpty params !! k = Some v →
             found_query found !! k = Some v) ∧
     (∀ k, spreadOrEmpty params !! k = None →
           found_query found !! k = spreadOrEmpty query !! k) ∧
     (query = None → params = None → found_query found = ∅)).
Proof.
  unfold findPageComponents.
  destruct (loadComponents definition) as [components|]; split; try done.
  intros found [= <-]. simpl. split; [done|]. split; [|split].
  - intros k v Hk. rewrite lookup_union, Hk.
    by destruct (spreadOrEmpty query !! k).
  - intros k Hk. rewrite lookup_union, Hk. by rewrite (left_id_L None _).
  - intros -> ->. simpl. by rewrite (left_id_L ∅ _).
Qed.
